(** * Approval gates and the audit ledger of Loki Mode

    A shallow embedding of [src/policies/approval.js] (the
    [ApprovalGateManager] class) together with the Node.js facilities it
    drives (timers, promises, the file system), and a model of the
    hash-chained audit ledger described in the audit-logging guide.

    Conventions.
    - JavaScript numbers are exact rationals ([Q]); IEEE rounding is not
      modelled.  Instants ([Date.now()], [new Date().toISOString()]) are
      integer milliseconds; one clock reading is used per synchronous call.
    - A request object is shared by [_state.requests], the timer closure and
      the [_pendingTimers] entry.  Its reference is its index in
      [_state.requests] (the array only ever grows by [push]), so a write
      through any alias is an update at that index.
    - [_pendingTimers] is a [gmap] from request ids to entries; Node's timer
      list is a [gmap] from timer ids to armed timers; promises live in a
      list and are named by their index.
    - The process is a transition system ([step]): calls of the manager's
      API, timer callbacks, and the passing of time.  The event loop is
      taken to be punctual: the clock does not move past the millisecond at
      which a timer became due before that timer's callback has run.
    - File-system writes are assumed to succeed; reads can fail.  State
      documents whose JSON is well formed but not of the shape
      [{requests: [...], audit: [...]}] are outside the model. *)

From Stdlib Require Import QArith Qround Lqa.
From stdpp Require Import gmap strings list fin_maps pretty.

Open Scope Z_scope.
Open Scope string_scope.

(* ------------------------------------------------------------------- *)
(** ** Host functions left abstract *)
(* ------------------------------------------------------------------- *)

(** [approval.js] line 29: the four request states. *)
Inductive Status := Pending | Approved | Rejected | TimedOut.

Global Instance Status_eq_dec : EqDecision Status.
Proof. solve_decision. Defined.

Definition APPROVAL_STATES : list Status := [Pending; Approved; Rejected; TimedOut].

Definition status_name (s : Status) : string :=
  match s with
  | Pending => "pending"
  | Approved => "approved"
  | Rejected => "rejected"
  | TimedOut => "timed_out"
  end.

Definition terminal (s : Status) : bool :=
  match s with Pending => false | _ => true end.

(** A caller-supplied JavaScript value (the [context] argument). *)
#[warnings="-register-all"]
Inductive jsval :=
  | JUndefined
  | JNull
  | JBool (b : bool)
  | JNum (q : Q)
  | JStr (s : string)
  | JObj (fields : list (string * jsval)).

(** ToBoolean. *)
Definition truthy (v : jsval) : bool :=
  match v with
  | JUndefined | JNull => false
  | JBool b => b
  | JNum q => negb (Qeq_bool q 0)
  | JStr s => negb (String.eqb s "")
  | JObj _ => true
  end.

(** The [timeout_minutes] property of a gate: absent, [null] or a number. *)
Inductive tmval := TmAbsent | TmNull | TmNum (q : Q).

(** GateDefinition: [{name, phase, timeout_minutes, webhook?}]. *)
Record Gate := {
  g_name : string;
  g_phase : string;
  g_timeout_minutes : tmval;
  g_webhook : option string;
}.

(** The request object built at lines 121-131. *)
Record Request := {
  r_id : string;
  r_phase : string;
  r_gate : string;
  r_status : Status;
  r_context : jsval;
  r_createdAt : Z;
  r_resolvedAt : option Z;
  r_method : option string;
  r_reason : option string;
}.

(** The record pushed by [_addAudit] (lines 250-259). *)
Record AuditRecord := {
  a_id : string;
  a_phase : string;
  a_gate : string;
  a_status : Status;
  a_method : option string;
  a_reason : option string;
  a_createdAt : Z;
  a_resolvedAt : option Z;
}.

(** [this._state]: [{requests, audit}]. *)
Record State := {
  requests : list Request;
  audit : list AuditRecord;
}.

(** What a promise returned by [requestApproval] resolves with. *)
Record Result := {
  res_approved : bool;
  res_reason : string;
  res_method : string;
}.

(** The host functions whose text-level behaviour is not part of this
    repository: [JSON.parse] restricted to documents of the state's shape
    ([None] when it throws), [JSON.stringify (_, null, 2)] on the state, and
    the Number-to-String conversion used by string concatenation. *)
Class JSRuntime := {
  JSON_parse : string -> option State;
  JSON_stringify : State -> string;
  Number_toString : Q -> string;
}.

(* ------------------------------------------------------------------- *)
(** ** Node.js: file system, timers, promises *)
(* ------------------------------------------------------------------- *)

Inductive fsnode :=
  | Dir
  | Unreadable
  | File (raw : string).

Global Instance fsnode_eq_dec : EqDecision fsnode.
Proof. solve_decision. Defined.

Definition existsSync (fs : gmap string fsnode) (p : string) : bool :=
  bool_decide (is_Some (fs !! p)).

(** [fs.readFileSync (p, 'utf8')]: [None] when it throws. *)
Definition readFileSync (fs : gmap string fsnode) (p : string) : option string :=
  match fs !! p with
  | Some (File raw) => Some raw
  | _ => None
  end.

Definition mkdirSync (fs : gmap string fsnode) (p : string) : gmap string fsnode :=
  <[p := Dir]> fs.

(** [fs.writeFileSync (p, data)] opens [p] with flag 'w' (create or
    truncate) and then writes [data]: the states of the file system that
    another process can observe while the call runs, the last one being the
    state on return. *)
Definition writeFileSync_states (fs : gmap string fsnode) (p data : string)
  : list (gmap string fsnode) :=
  [ <[p := File ""]> fs ; <[p := File data]> fs ].

Definition writeFileSync (fs : gmap string fsnode) (p data : string)
  : gmap string fsnode :=
  <[p := File data]> fs.

Definition path_join (parts : list string) : string := String.concat "/" parts.

(** The closure passed to [setTimeout] at line 145: its free variables. *)
Record TimeoutCallback := {
  cb_requestId : string;
  cb_request : nat;
  cb_gate : Gate;
  cb_resolve : nat;
}.

(** An armed Node [Timeout]. *)
Record Timer := {
  t_start : Z;
  t_after : Q;
  t_callback : TimeoutCallback;
}.

Definition TIMEOUT_MAX : Q := 2147483647.

(** Node's [setTimeout] replaces a delay outside [1, 2^31-1] by 1 ms
    ([lib/internal/timers.js], the [Timeout] constructor). *)
Definition timer_after (delay : Q) : Q :=
  if Qle_bool 1 delay && Qle_bool delay TIMEOUT_MAX then delay else 1%Q.

(** The timer is due once [after] milliseconds have passed since it was armed. *)
Definition due (t : Timer) (clock : Z) : bool :=
  Qle_bool (t_after t) (inject_Z (clock - t_start t)).

(** A promise: its settled value, and how often its [resolve] function ran. *)
Record Promise := {
  settled : option Result;
  resolve_calls : nat;
}.

Definition promise_pending : Promise := {| settled := None; resolve_calls := 0 |}.

(** [Promise.resolve (v)]. *)
Definition promise_fulfilled (v : Result) : Promise :=
  {| settled := Some v; resolve_calls := 1 |}.

(** Calling the [resolve] function of a promise: only the first call settles it. *)
Definition call_resolve (v : Result) (p : Promise) : Promise :=
  {| settled := match settled p with Some old => Some old | None => Some v end;
     resolve_calls := S (resolve_calls p) |}.

(** The body sent by [_sendWebhook] (lines 208-215). *)
Record WebhookPayload := {
  wh_type : string;
  wh_id : string;
  wh_phase : string;
  wh_gate : string;
  wh_context : jsval;
  wh_createdAt : Z;
}.

(* ------------------------------------------------------------------- *)
(** ** The manager and its world *)
(* ------------------------------------------------------------------- *)

(** How a call ends: it returns a value or it throws. *)
Inductive Completion (A : Type) :=
  | Returned (a : A)
  | Threw (error : string).
Arguments Returned {A} a.
Arguments Threw {A} error.

(** [_pendingTimers] is created as the object literal [{}], so reading a
    property that it does not own finds the members of [Object.prototype]:
    functions, or the prototype object itself for [__proto__], all truthy. *)
Definition Object_prototype_names : list string :=
  [ "constructor"; "__proto__"; "hasOwnProperty"; "isPrototypeOf";
    "propertyIsEnumerable"; "toLocaleString"; "toString"; "valueOf";
    "__defineGetter__"; "__defineSetter__"; "__lookupGetter__"; "__lookupSetter__" ].

Definition inherited (key : string) : bool :=
  existsb (String.eqb key) Object_prototype_names.

(** An entry of [_pendingTimers]: [{timer, resolve, request}]. *)
Record PendingEntry := {
  pe_timer : nat;
  pe_resolve : nat;
  pe_request : nat;
}.

(** The manager's fields together with the part of the Node process it
    touches.  [fs_history] is a ghost record of every file-system state that
    was observable from outside, oldest first. *)
Record World := {
  clock : Z;
  fs : gmap string fsnode;
  fs_history : list (gmap string fsnode);
  timers : gmap nat Timer;
  next_timer : nat;
  promises : list Promise;
  webhook_posts : list (string * WebhookPayload);
  _projectDir : string;
  _gates : list Gate;
  _state : State;
  _pendingTimers : gmap string PendingEntry;
}.

Definition DEFAULT_TIMEOUT_MINUTES : Q := 30.

Definition _stateFile (w : World) : string :=
  path_join [_projectDir w; ".loki"; "state"; "approvals.json"].

(** [path.dirname (this._stateFile)]. *)
Definition _stateDir (w : World) : string :=
  path_join [_projectDir w; ".loki"; "state"].

Definition empty_state : State := {| requests := []; audit := [] |}.

Definition set_fs (f : gmap string fsnode) (w : World) : World :=
  {| clock := clock w; fs := f; fs_history := fs_history w; timers := timers w; next_timer := next_timer w;
     promises := promises w; webhook_posts := webhook_posts w;
     _projectDir := _projectDir w; _gates := _gates w; _state := _state w;
     _pendingTimers := _pendingTimers w |}.

Definition set_fs_history (h : list (gmap string fsnode)) (w : World) : World :=
  {| clock := clock w; fs := fs w; fs_history := h; timers := timers w;
     next_timer := next_timer w;
     promises := promises w; webhook_posts := webhook_posts w;
     _projectDir := _projectDir w; _gates := _gates w; _state := _state w;
     _pendingTimers := _pendingTimers w |}.

Definition set_state (s : State) (w : World) : World :=
  {| clock := clock w; fs := fs w; fs_history := fs_history w; timers := timers w; next_timer := next_timer w;
     promises := promises w; webhook_posts := webhook_posts w;
     _projectDir := _projectDir w; _gates := _gates w; _state := s;
     _pendingTimers := _pendingTimers w |}.

Definition set_timers (ts : gmap nat Timer) (w : World) : World :=
  {| clock := clock w; fs := fs w; fs_history := fs_history w; timers := ts; next_timer := next_timer w;
     promises := promises w; webhook_posts := webhook_posts w;
     _projectDir := _projectDir w; _gates := _gates w; _state := _state w;
     _pendingTimers := _pendingTimers w |}.

Definition set_next_timer (n : nat) (w : World) : World :=
  {| clock := clock w; fs := fs w; fs_history := fs_history w; timers := timers w; next_timer := n;
     promises := promises w; webhook_posts := webhook_posts w;
     _projectDir := _projectDir w; _gates := _gates w; _state := _state w;
     _pendingTimers := _pendingTimers w |}.

Definition set_promises (ps : list Promise) (w : World) : World :=
  {| clock := clock w; fs := fs w; fs_history := fs_history w; timers := timers w; next_timer := next_timer w;
     promises := ps; webhook_posts := webhook_posts w;
     _projectDir := _projectDir w; _gates := _gates w; _state := _state w;
     _pendingTimers := _pendingTimers w |}.

Definition set_webhook_posts (l : list (string * WebhookPayload)) (w : World) : World :=
  {| clock := clock w; fs := fs w; fs_history := fs_history w; timers := timers w; next_timer := next_timer w;
     promises := promises w; webhook_posts := l;
     _projectDir := _projectDir w; _gates := _gates w; _state := _state w;
     _pendingTimers := _pendingTimers w |}.

Definition set_pendingTimers (m : gmap string PendingEntry) (w : World) : World :=
  {| clock := clock w; fs := fs w; fs_history := fs_history w; timers := timers w; next_timer := next_timer w;
     promises := promises w; webhook_posts := webhook_posts w;
     _projectDir := _projectDir w; _gates := _gates w; _state := _state w;
     _pendingTimers := m |}.

Definition set_clock (c : Z) (w : World) : World :=
  {| clock := c; fs := fs w; fs_history := fs_history w; timers := timers w; next_timer := next_timer w;
     promises := promises w; webhook_posts := webhook_posts w;
     _projectDir := _projectDir w; _gates := _gates w; _state := _state w;
     _pendingTimers := _pendingTimers w |}.

(* ------------------------------------------------------------------- *)
(** ** ApprovalGateManager *)
(* ------------------------------------------------------------------- *)

Section Manager.
Context `{JSRuntime}.

(** Lines 52-62.  A throwing [readFileSync] or [JSON.parse] is caught and
    falls through to the empty state. *)
Definition _loadState (files : gmap string fsnode) (stateFile : string) : State :=
  if existsSync files stateFile then
    match readFileSync files stateFile with
    | Some raw =>
        match JSON_parse raw with
        | Some s => s
        | None => empty_state
        end
    | None => empty_state
    end
  else empty_state.

(** Lines 40-46; [cwd] is [process.cwd()]. *)
Definition constructor (cwd : string) (now : Z) (files : gmap string fsnode)
    (projectDir : option string) (gates : option (list Gate)) : World :=
  let dir := match projectDir with
             | Some d => if String.eqb d "" then cwd else d
             | None => cwd
             end in
  {| clock := now; fs := files; fs_history := []; timers := ∅; next_timer := 0%nat;
     promises := []; webhook_posts := [];
     _projectDir := dir;
     _gates := default [] gates;
     _state := _loadState files (path_join [dir; ".loki"; "state"; "approvals.json"]);
     _pendingTimers := ∅ |}.

(** The file-system states another process can observe during [_saveState]
    (lines 64-70): after [mkdirSync] when the directory is missing, then
    those of [writeFileSync]. *)
Definition _saveState_states (w : World) : list (gmap string fsnode) :=
  let dir := _stateDir w in
  let fs1 := if existsSync (fs w) dir then fs w else mkdirSync (fs w) dir in
  (if existsSync (fs w) dir then [] else [fs1])
  ++ writeFileSync_states fs1 (_stateFile w) (JSON_stringify (_state w)).

(** Lines 64-70. *)
Definition _saveState (w : World) : World :=
  let dir := _stateDir w in
  let fs1 := if existsSync (fs w) dir then fs w else mkdirSync (fs w) dir in
  set_fs_history (fs_history w ++ _saveState_states w)
    (set_fs (writeFileSync fs1 (_stateFile w) (JSON_stringify (_state w))) w).

(** Lines 79-86: the first gate whose phase is [phase]. *)
Fixpoint findGate_in (gs : list Gate) (phase : string) : option Gate :=
  match gs with
  | [] => None
  | g :: rest => if String.eqb (g_phase g) phase then Some g else findGate_in rest phase
  end.

Definition findGate (w : World) (phase : string) : option Gate :=
  findGate_in (_gates w) phase.

(** Lines 91-93. *)
Definition hasGate (w : World) (phase : string) : bool :=
  bool_decide (findGate w phase ≠ None).

(** [gate.timeout_minutes || DEFAULT_TIMEOUT_MINUTES] (lines 119 and 150). *)
Definition timeout_minutes_or_default (gate : Gate) : Q :=
  match g_timeout_minutes gate with
  | TmNum q => if Qeq_bool q 0 then DEFAULT_TIMEOUT_MINUTES else q
  | TmAbsent | TmNull => DEFAULT_TIMEOUT_MINUTES
  end.

(** Line 119: the delay in milliseconds. *)
Definition timeout_ms (gate : Gate) : Q :=
  (timeout_minutes_or_default gate * 60 * 1000)%Q.

(** The object literal of [_addAudit] (lines 250-259). *)
Definition audit_record (r : Request) : AuditRecord :=
  {| a_id := r_id r; a_phase := r_phase r; a_gate := r_gate r;
     a_status := r_status r; a_method := r_method r; a_reason := r_reason r;
     a_createdAt := r_createdAt r; a_resolvedAt := r_resolvedAt r |}.

Definition _addAudit (r : Request) (s : State) : State :=
  {| requests := requests s; audit := audit s ++ [audit_record r] |}.

(** Lines 206-243: fire and forget; every failure is swallowed, so the only
    trace kept is the POST that was attempted. *)
Definition _sendWebhook (url : string) (r : Request) (w : World) : World :=
  set_webhook_posts
    (webhook_posts w ++
      [(url, {| wh_type := "approval_request"; wh_id := r_id r;
                wh_phase := r_phase r; wh_gate := r_gate r;
                wh_context := r_context r; wh_createdAt := r_createdAt r |})]) w.

(** Line 118, with [Math.random().toString(36).substring(2, 8)] given as [rnd]. *)
Definition make_requestId (now : Z) (rnd : string) : string :=
  "apr-" ++ pretty now ++ "-" ++ rnd.

(** The request object literal of lines 121-131. *)
Definition new_request (rnd phase : string) (context : jsval)
    (gate : Gate) (w : World) : Request :=
  {| r_id := make_requestId (clock w) rnd; r_phase := phase; r_gate := g_name gate;
     r_status := Pending;
     r_context := if truthy context then context else JObj [];
     r_createdAt := clock w; r_resolvedAt := None;
     r_method := None; r_reason := None |}.

(** Lines 107-167.  Returns the world after the call and the promise. *)
Definition requestApproval (rnd phase : string) (context : jsval) (w : World)
  : World * nat :=
  match findGate w phase with
  | None =>
      (set_promises
         (promises w ++
           [promise_fulfilled
              {| res_approved := true;
                 res_reason := "No approval gate configured for phase: " ++ phase;
                 res_method := "auto" |}]) w,
       length (promises w))
  | Some gate =>
      let requestId := make_requestId (clock w) rnd in
      let timeout := timeout_ms gate in
      let request := new_request rnd phase context gate w in
      let loc := length (requests (_state w)) in
      let w1 := set_state {| requests := requests (_state w) ++ [request];
                             audit := audit (_state w) |} w in
      let w2 := _saveState w1 in
      let w3 := match g_webhook gate with
                | Some url => if String.eqb url "" then w2 else _sendWebhook url request w2
                | None => w2
                end in
      let p := length (promises w3) in
      let w4 := set_promises (promises w3 ++ [promise_pending]) w3 in
      let tid := next_timer w4 in
      let timer := {| t_start := clock w4; t_after := timer_after timeout;
                      t_callback := {| cb_requestId := requestId; cb_request := loc;
                                       cb_gate := gate; cb_resolve := p |} |} in
      let w5 := set_next_timer (S tid) (set_timers (<[tid := timer]> (timers w4)) w4) in
      (set_pendingTimers
         (<[requestId := {| pe_timer := tid; pe_resolve := p; pe_request := loc |}]>
            (_pendingTimers w5)) w5,
       p)
  end.

(** Line 150. *)
Definition timeout_reason (gate : Gate) : string :=
  "Auto-approved after " ++ Number_toString (timeout_minutes_or_default gate)
  ++ " minute timeout".

(** The request object after the assignments of lines 147-150. *)
Definition timed_out_request (gate : Gate) (now : Z) (r : Request) : Request :=
  {| r_id := r_id r; r_phase := r_phase r; r_gate := r_gate r;
     r_status := TimedOut; r_context := r_context r;
     r_createdAt := r_createdAt r;
     r_resolvedAt := Some now;
     r_method := Some "timeout";
     r_reason := Some (timeout_reason gate) |}.

(** Lines 145-158: the body of the timer callback. *)
Definition timeout_callback (cb : TimeoutCallback) (w : World) : World :=
  let w1 := set_pendingTimers (delete (cb_requestId cb) (_pendingTimers w)) w in
  match requests (_state w1) !! cb_request cb with
  | None => w1
  | Some r =>
      let r' := timed_out_request (cb_gate cb) (clock w1) r in
      let s1 := {| requests := <[cb_request cb := r']> (requests (_state w1));
                   audit := audit (_state w1) |} in
      let w2 := _saveState (set_state (_addAudit r' s1) w1) in
      set_promises
        (alter (call_resolve {| res_approved := true;
                                res_reason := timeout_reason (cb_gate cb);
                                res_method := "timeout" |})
               (cb_resolve cb) (promises w2)) w2
  end.

(** Line 188: [reason || (approved ? 'Manually approved' : 'Manually rejected')];
    [None] is an omitted argument, and the empty string is falsy too. *)
Definition manual_reason (approved : bool) (reason : option string) : string :=
  match reason with
  | Some s => if String.eqb s "" then
                (if approved then "Manually approved" else "Manually rejected")
              else s
  | None => if approved then "Manually approved" else "Manually rejected"
  end.

(** The request object after the assignments of lines 185-188. *)
Definition resolved_request (approved : bool) (reason : option string) (now : Z)
    (r : Request) : Request :=
  {| r_id := r_id r; r_phase := r_phase r; r_gate := r_gate r;
     r_status := if approved then Approved else Rejected;
     r_context := r_context r;
     r_createdAt := r_createdAt r;
     r_resolvedAt := Some now;
     r_method := Some "manual";
     r_reason := Some (manual_reason approved reason) |}.

(** Lines 177-200.  When [requestId] is not an own property but names a
    member of [Object.prototype], [pending] is that member: it passes the
    guard of line 179, [clearTimeout (undefined)] and [delete] do nothing,
    [pending.request] is [undefined] and the assignment of line 185 throws. *)
Definition resolveApproval (requestId : string) (approved : bool)
    (reason : option string) (w : World) : World * Completion bool :=
  match _pendingTimers w !! requestId with
  | None =>
      if inherited requestId then (w, Threw "TypeError") else (w, Returned false)
  | Some entry =>
      let w1 := set_timers (delete (pe_timer entry) (timers w)) w in
      let w2 := set_pendingTimers (delete requestId (_pendingTimers w1)) w1 in
      match requests (_state w2) !! pe_request entry with
      | None => (w2, Returned true)
      | Some r =>
          let r' := resolved_request approved reason (clock w2) r in
          let s1 := {| requests := <[pe_request entry := r']> (requests (_state w2));
                       audit := audit (_state w2) |} in
          let w3 := _saveState (set_state (_addAudit r' s1) w2) in
          (set_promises
             (alter (call_resolve {| res_approved := approved;
                                     res_reason := manual_reason approved reason;
                                     res_method := "manual" |})
                    (pe_resolve entry) (promises w3)) w3,
           Returned true)
      end
  end.

(** Lines 265-267 and 272-276. *)
Definition getAuditTrail (w : World) : list AuditRecord := audit (_state w).

Definition getPendingRequests (w : World) : list Request :=
  filter (fun r => r_status r = Pending) (requests (_state w)).

(** Lines 285-291: [clearTimeout] on the timer of every entry, then an empty table. *)
Definition destroy (w : World) : World :=
  set_pendingTimers ∅
    (set_timers
       (foldr (fun kv ts => delete (pe_timer kv.2) ts) (timers w)
              (map_to_list (_pendingTimers w))) w).

(* ------------------------------------------------------------------- *)
(** ** The event loop *)
(* ------------------------------------------------------------------- *)

(** What can happen to a manager: a call of its API, a timer of the Node
    event loop running its callback, or time passing. *)
Inductive Event :=
  | CallRequest (rnd phase : string) (context : jsval)
  | CallResolve (requestId : string) (approved : bool) (reason : option string)
  | CallDestroy
  | TimerFires (tid : nat)
  | ClockAdvances (dt : Z).

(** No armed timer was already due one millisecond before [t]. *)
Definition none_overdue (ts : gmap nat Timer) (t : Z) : bool :=
  bool_decide (map_Forall (fun _ tm => due tm (t - 1) = false) ts).

(** One step of the process; [None] when the event cannot happen: a timer
    runs only if armed and due, and the event loop runs the callback of a
    due timer before the clock moves past the millisecond it became due. *)
Definition step (e : Event) (w : World) : option World :=
  match e with
  | CallRequest rnd phase context => Some (requestApproval rnd phase context w).1
  | CallResolve requestId ok reason => Some (resolveApproval requestId ok reason w).1
  | CallDestroy => Some (destroy w)
  | TimerFires tid =>
      match timers w !! tid with
      | Some t =>
          if due t (clock w)
          then Some (timeout_callback (t_callback t)
                       (set_timers (delete tid (timers w)) w))
          else None
      | None => None
      end
  | ClockAdvances dt =>
      if bool_decide (0 < dt) && none_overdue (timers w) (clock w + dt)
      then Some (set_clock (clock w + dt) w)
      else None
  end.

Fixpoint run (es : list Event) (w : World) : option World :=
  match es with
  | [] => Some w
  | e :: rest =>
      match step e w with
      | Some w' => run rest w'
      | None => None
      end
  end.

End Manager.

(* ------------------------------------------------------------------- *)
(** ** The audit ledger *)
(* ------------------------------------------------------------------- *)

(** The ledger's implementation ([dashboard/audit.py]) is not among the
    sources; only its guide is (sections "Log Integrity" and
    "Verification").  The definitions of this part follow the specification. *)

(** Modelled from the spec: the levels of an AuditEntry. *)
Inductive Level := debug | info | warning | error.

(** Modelled from the spec: the fields of an AuditEntry other than
    [chain_hash] (section 3, AuditEntry). *)
Record EntryContent := {
  timestamp : Z;
  event : string;
  level : Level;
  actor : string;
  resource : option string;
  details : list (string * string);
  metadata : list (string * string);
}.

(** Modelled from the spec: an AuditEntry, its content and its [chain_hash]. *)
Record AuditEntry := {
  content : EntryContent;
  chain_hash : string;
}.

(** Modelled from the spec: what reading one line of a segment yields, a
    serialized AuditEntry or a line that does not parse. *)
Inductive Line :=
  | Entry (e : AuditEntry)
  | Garbled (raw : string).

(** Modelled from the spec: the cryptographic hash function (SHA-256 in the
    guide) and the canonical serialization of an entry's content, which the
    spec leaves to the implementer. *)
Class LedgerFormat := {
  digest : string -> string;
  serialize : EntryContent -> string;
}.

(** Modelled from the spec: the genesis value, 64 zero characters. *)
Definition GENESIS : string :=
  "0000000000000000000000000000000000000000000000000000000000000000".

(** Modelled from the spec: a ledger instance, its active segment and the
    "current chain hash" cursor (section 9, first note). *)
Record Ledger := {
  segment : list Line;
  cursor : string;
}.

(** Modelled from the spec: the result of [verify]. *)
Record VerifyResult := {
  valid : bool;
  entriesChecked : nat;
  firstTamperedLine : option nat;
}.


Section LedgerModel.
Context `{LedgerFormat}.

(** Modelled from the spec: a fresh segment, as [rotate] starts one
    ("starts a new one with a fresh genesis hash"). *)
Definition new_segment : Ledger := {| segment := []; cursor := GENESIS |}.

(** Modelled from the spec: [chain_hash = H (previous_chain_hash ||
    serialize (entry minus chain_hash))]. *)
Definition chain (prev : string) (c : EntryContent) : string :=
  digest (prev ++ serialize c).

(** Modelled from the spec: [append] computes the chain hash from the
    cursor, writes the entry as one line, and advances the cursor. *)
Definition append (c : EntryContent) (l : Ledger) : Ledger * AuditEntry :=
  let e := {| content := c; chain_hash := chain (cursor l) c |} in
  ({| segment := segment l ++ [Entry e]; cursor := chain_hash e |}, e).

(** Modelled from the spec: a sequence of [append] calls, in order. *)
Definition append_all (cs : list EntryContent) (l : Ledger) : Ledger :=
  foldl (fun acc c => (append c acc).1) l cs.

(** Modelled from the spec: [verify] "recomputes the chain from genesis and
    reports the first line where [chain_hash] does not match the recomputed
    value"; "any parse error counts as tampering at that line".  Lines are
    numbered from 0, like the entries in the chain invariant. *)
Fixpoint verify_from (prev : string) (n : nat) (lines : list Line) : VerifyResult :=
  match lines with
  | [] => {| valid := true; entriesChecked := n; firstTamperedLine := None |}
  | Garbled _ :: _ =>
      {| valid := false; entriesChecked := n; firstTamperedLine := Some n |}
  | Entry e :: rest =>
      let h := chain prev (content e) in
      if String.eqb (chain_hash e) h
      then verify_from h (S n) rest
      else {| valid := false; entriesChecked := n; firstTamperedLine := Some n |}
  end.

(** Modelled from the spec: [verify (segment)], from the genesis value. *)
Definition verify (lines : list Line) : VerifyResult :=
  verify_from GENESIS 0 lines.


(** Modelled from the spec: the hash the entry before line [i] carries
    ([chain_hash[i-1]]), the genesis value for line 0. *)
Definition previous_hash (lines : list Line) (i : nat) : string :=
  match i with
  | O => GENESIS
  | S j => match lines !! j with
           | Some (Entry e) => chain_hash e
           | _ => GENESIS
           end
  end.




End LedgerModel.

(* ------------------------------------------------------------------- *)
(** ** Invariants of a manager *)
(* ------------------------------------------------------------------- *)

(** What holds of every world a manager can reach: each armed timer was
    created by one [requestApproval] call together with its request object
    and its promise, which are still untouched, and each entry of
    [_pendingTimers] is filed under the id of its request and names an
    armed timer with the same request and resolver. *)
Record Inv (w : World) : Prop := {
  inv_timer_fresh : forall tid t,
    timers w !! tid = Some t -> (tid < next_timer w)%nat;
  inv_timer_id : forall tid t,
    timers w !! tid = Some t -> inherited (cb_requestId (t_callback t)) = false;
  inv_timer_request : forall tid t,
    timers w !! tid = Some t ->
    exists r, requests (_state w) !! cb_request (t_callback t) = Some r
              /\ r_status r = Pending
              /\ r_id r = cb_requestId (t_callback t);
  inv_timer_promise : forall tid t,
    timers w !! tid = Some t ->
    promises w !! cb_resolve (t_callback t) = Some promise_pending;
  inv_timer_request_inj : forall tid1 tid2 t1 t2,
    timers w !! tid1 = Some t1 -> timers w !! tid2 = Some t2 ->
    cb_request (t_callback t1) = cb_request (t_callback t2) -> tid1 = tid2;
  inv_timer_promise_inj : forall tid1 tid2 t1 t2,
    timers w !! tid1 = Some t1 -> timers w !! tid2 = Some t2 ->
    cb_resolve (t_callback t1) = cb_resolve (t_callback t2) -> tid1 = tid2;
  inv_entry : forall k e,
    _pendingTimers w !! k = Some e ->
    exists t, timers w !! pe_timer e = Some t
              /\ cb_requestId (t_callback t) = k
              /\ cb_request (t_callback t) = pe_request e
              /\ cb_resolve (t_callback t) = pe_resolve e;
}.

(** Request ids are meant to be unique ([Date.now()] plus six random
    base-36 digits): no request that reached a terminal status shares its
    id with an entry of [_pendingTimers]. *)
Definition UniqueIds (w : World) : Prop :=
  forall loc r, requests (_state w) !! loc = Some r ->
    terminal (r_status r) = true -> _pendingTimers w !! r_id r = None.

(** A legal move of a request's status: none, or from [Pending] to a
    terminal status. *)
Definition legal_move (before after : Status) : Prop :=
  after = before \/ (before = Pending /\ terminal after = true).

(** The state file holds exactly the serialization of the whole state. *)
Definition persisted `{JSRuntime} (w : World) : Prop :=
  fs w !! _stateFile w = Some (File (JSON_stringify (_state w))).



(** A small runtime to evaluate the model on concrete inputs: it prints a
    state as the sizes of its two arrays and parses only the text of the
    empty state. *)
Definition demo_stringify (s : State) : string :=
  "requests:" ++ pretty (length (requests s)) ++ ",audit:" ++ pretty (length (audit s)).

Definition demo_parse (raw : string) : option State :=
  if String.eqb raw (demo_stringify empty_state) then Some empty_state else None.

Definition demo_runtime : JSRuntime :=
  {| JSON_parse := demo_parse;
     JSON_stringify := demo_stringify;
     Number_toString := fun q => pretty (Qnum q) ++ "/" ++ pretty (Zpos (Qden q)) |}.

(** The gates of the test-suite ([approval.test.js], lines 61-72). *)
Definition test_gates : list Gate :=
  [ {| g_name := "pre-deploy"; g_phase := "deploy";
       g_timeout_minutes := TmNum (1 # 100); g_webhook := None |};
    {| g_name := "pre-release"; g_phase := "release";
       g_timeout_minutes := TmNum 30; g_webhook := None |} ].

Definition test_world : World :=
  @constructor demo_runtime "/tmp" 1000 ∅ (Some "/tmp/loki-approval-test") (Some test_gates).

(** The timer that a [requestApproval] call with a matching gate arms
    (lines 145-158 and 161-165). *)
Definition new_timer `{JSRuntime} (rnd : string) (gate : Gate) (w : World) : Timer :=
  {| t_start := clock w; t_after := timer_after (timeout_ms gate);
     t_callback := {| cb_requestId := make_requestId (clock w) rnd;
                      cb_request := length (requests (_state w));
                      cb_gate := gate;
                      cb_resolve := length (promises w) |} |}.





(** The one way a request leaves [Pending]: the timer [tid] is retired (it
    ran, or it was cleared by a manual resolution), the entry filed under its
    request id is removed, its request object becomes [r'] and its promise's
    [resolve] is called with [v]. *)
Record Retires (w w' : World) (tid : nat) (t : Timer) (r' : Request) (v : Result)
  : Prop := {
  ret_timer : timers w !! tid = Some t;
  ret_timers : timers w' = delete tid (timers w);
  ret_next : next_timer w' = next_timer w;
  ret_promises :
    promises w' = alter (call_resolve v) (cb_resolve (t_callback t)) (promises w);
  ret_requests :
    requests (_state w') = <[cb_request (t_callback t) := r']> (requests (_state w));
  ret_audit : audit (_state w') = (audit (_state w) ++ [audit_record r'])%list;
  ret_pending :
    _pendingTimers w' = delete (cb_requestId (t_callback t)) (_pendingTimers w);
}.

(** Request ids generated by [requestApproval] do not repeat an id already
    in [_state.requests]. *)
Definition fresh_id `{JSRuntime} (e : Event) (w : World) : Prop :=
  match e with
  | CallRequest rnd _ _ =>
      forall loc r, requests (_state w) !! loc = Some r ->
                    r_id r <> make_requestId (clock w) rnd
  | _ => True
  end.



(* ------------------------------------------------------------------- *)
(** ** Written and tampered segments of the ledger *)
(* ------------------------------------------------------------------- *)

Section LedgerTampering.
Context `{LedgerFormat}.

(** Modelled from the spec: the lines that appending [cs] to a segment
    whose cursor is [prev] writes. *)
Fixpoint chain_lines (prev : string) (cs : list EntryContent) : list Line :=
  match cs with
  | [] => []
  | c :: rest =>
      Entry {| content := c; chain_hash := chain prev c |}
      :: chain_lines (chain prev c) rest
  end.





End LedgerTampering.

(** A small ledger format to evaluate the model on concrete inputs: the
    digest is the identity (so it has no collisions) and an entry is
    serialized as its event and its actor. *)
Definition demo_format : LedgerFormat :=
  {| digest := fun s => s;
     serialize := fun c => event c ++ "|" ++ actor c |}.

Definition demo_entry (ev who : string) : EntryContent :=
  {| timestamp := 0; event := ev; level := info; actor := who;
     resource := None; details := []; metadata := [] |}.


(* ------------------------------------------------------------------- *)
(** ** Reachable worlds, abandoned requests, restarts *)
(* ------------------------------------------------------------------- *)

(** The worlds a manager can be in: built by the constructor, then any
    events. *)
Definition reachable `{JSRuntime} (w : World) : Prop :=
  exists cwd now files projectDir gates es,
    run es (constructor cwd now files projectDir gates) = Some w.

(** The fields of a request that say which request it is. *)
Definition same_identity (r r' : Request) : Prop :=
  r_id r' = r_id r /\ r_phase r' = r_phase r /\ r_gate r' = r_gate r
  /\ r_context r' = r_context r /\ r_createdAt r' = r_createdAt r.

(** The events that resolve a request: its timer running, or a manual
    resolution that finds its entry. *)
Definition resolves `{JSRuntime} (e : Event) (w : World) : bool :=
  match e with
  | TimerFires _ => true
  | CallResolve requestId _ _ => bool_decide (is_Some (_pendingTimers w !! requestId))
  | CallRequest _ _ _ | CallDestroy | ClockAdvances _ => false
  end.

(** The [method] recorded by a resolving event. *)
Definition method_of (e : Event) : string :=
  match e with
  | TimerFires _ => "timeout"
  | _ => "manual"
  end.


(** No armed timer holds a reference to the request at [loc], or to the
    promise [p]. *)
Definition Unwatched (loc : nat) (w : World) : Prop :=
  forall tid t, timers w !! tid = Some t -> cb_request (t_callback t) <> loc.

Definition Unheld (p : nat) (w : World) : Prop :=
  forall tid t, timers w !! tid = Some t -> cb_resolve (t_callback t) <> p.

(** Every armed timer is filed in [_pendingTimers] under its request id. *)
Definition Tracked (w : World) : Prop :=
  forall tid t, timers w !! tid = Some t ->
    exists e, _pendingTimers w !! cb_requestId (t_callback t) = Some e
              /\ pe_timer e = tid.

(** The id an event generates is not the id of a request still pending. *)
Definition fresh_key `{JSRuntime} (e : Event) (w : World) : Prop :=
  match e with
  | CallRequest rnd _ _ => _pendingTimers w !! make_requestId (clock w) rnd = None
  | _ => True
  end.

(** A run in which ids never collide with a pending one. *)
Fixpoint fresh_run `{JSRuntime} (es : list Event) (w : World) : Prop :=
  match es with
  | [] => True
  | e :: rest =>
      fresh_key e w
      /\ match step e w with
         | Some w' => fresh_run rest w'
         | None => True
         end
  end.

(** A runtime whose [JSON.parse] reads back the one document [s0] as
    printed by [demo_stringify]. *)
Definition memo_runtime (s0 : State) : JSRuntime :=
  {| JSON_parse := fun raw =>
       if String.eqb raw (demo_stringify s0) then Some s0 else None;
     JSON_stringify := demo_stringify;
     Number_toString := fun q => pretty (Qnum q) ++ "/" ++ pretty (Zpos (Qden q)) |}.

(** Worlds of the test-suite used to evaluate the manager: one request
    pending for the release gate; the same with a second request for the
    deploy gate; a configuration with a webhook; one with a timeout of
    40 000 minutes. *)
Definition release_pending : World :=
  (@requestApproval demo_runtime "abc123" "release" (JObj []) test_world).1.

Definition two_pending : World :=
  (@requestApproval demo_runtime "def456" "deploy" JUndefined release_pending).1.





(** The manager of [release_pending] run with a [JSON.parse] that reads its
    state back. *)
Definition saved_world : World :=
  (@requestApproval (memo_runtime (_state release_pending))
     "abc123" "release" (JObj [])
     (@constructor (memo_runtime (_state release_pending)) "/tmp" 1000 ∅
        (Some "/tmp/loki-approval-test") (Some test_gates))).1.

(* =================================================================== *)
(** * Properties of the approval gate manager *)
(* =================================================================== *)

Section ManagerProofs.
Context `{JSRuntime}.

(** ** What each operation does to the fields of the world *)

Lemma requestApproval_no_gate rnd phase context w :
  findGate w phase = None ->
  requestApproval rnd phase context w =
    (set_promises
       (promises w ++
          [promise_fulfilled
             {| res_approved := true;
                res_reason := "No approval gate configured for phase: " ++ phase;
                res_method := "auto" |}]) w,
     length (promises w)).
Proof. intros Hg. unfold requestApproval. by rewrite Hg. Qed.

Lemma requestApproval_gate rnd phase context w gate :
  findGate w phase = Some gate ->
  let w' := (requestApproval rnd phase context w).1 in
  (requestApproval rnd phase context w).2 = length (promises w)
  /\ timers w' = <[next_timer w := new_timer rnd gate w]> (timers w)
  /\ next_timer w' = S (next_timer w)
  /\ promises w' = (promises w ++ [promise_pending])%list
  /\ requests (_state w') = (requests (_state w) ++ [new_request rnd phase context gate w])%list
  /\ audit (_state w') = audit (_state w)
  /\ _pendingTimers w' =
       <[make_requestId (clock w) rnd :=
           {| pe_timer := next_timer w; pe_resolve := length (promises w);
              pe_request := length (requests (_state w)) |}]> (_pendingTimers w)
  /\ clock w' = clock w /\ _gates w' = _gates w /\ _projectDir w' = _projectDir w.
Proof.
  intros Hg. unfold requestApproval. rewrite Hg.
  destruct (g_webhook gate) as [url|]; [destruct (String.eqb url "")|]; cbn; done.
Qed.

Lemma timeout_callback_fields cb w r :
  requests (_state w) !! cb_request cb = Some r ->
  let w' := timeout_callback cb w in
  let r' := timed_out_request (cb_gate cb) (clock w) r in
  timers w' = timers w
  /\ next_timer w' = next_timer w
  /\ promises w' =
       alter (call_resolve {| res_approved := true;
                              res_reason := timeout_reason (cb_gate cb);
                              res_method := "timeout" |})
             (cb_resolve cb) (promises w)
  /\ requests (_state w') = <[cb_request cb := r']> (requests (_state w))
  /\ audit (_state w') = (audit (_state w) ++ [audit_record r'])%list
  /\ _pendingTimers w' = delete (cb_requestId cb) (_pendingTimers w)
  /\ clock w' = clock w /\ _gates w' = _gates w /\ _projectDir w' = _projectDir w
  /\ webhook_posts w' = webhook_posts w.
Proof.
  intros Hr. unfold timeout_callback. cbn. rewrite Hr. cbn. done.
Qed.

Lemma resolveApproval_none requestId approved reason w :
  _pendingTimers w !! requestId = None -> inherited requestId = false ->
  resolveApproval requestId approved reason w = (w, Returned false).
Proof. intros Hp Hi. unfold resolveApproval. by rewrite Hp, Hi. Qed.


Lemma resolveApproval_none_world requestId approved reason w :
  _pendingTimers w !! requestId = None ->
  (resolveApproval requestId approved reason w).1 = w.
Proof.
  intros Hp. unfold resolveApproval. rewrite Hp. by destruct (inherited requestId).
Qed.

(** Generated ids start with "apr-": none is a member of [Object.prototype]. *)
Lemma make_requestId_not_inherited now rnd : inherited (make_requestId now rnd) = false.
Proof. reflexivity. Qed.

Lemma resolveApproval_fields requestId approved reason w e r :
  _pendingTimers w !! requestId = Some e ->
  requests (_state w) !! pe_request e = Some r ->
  let w' := (resolveApproval requestId approved reason w).1 in
  let r' := resolved_request approved reason (clock w) r in
  (resolveApproval requestId approved reason w).2 = Returned true
  /\ timers w' = delete (pe_timer e) (timers w)
  /\ next_timer w' = next_timer w
  /\ promises w' =
       alter (call_resolve {| res_approved := approved;
                              res_reason := manual_reason approved reason;
                              res_method := "manual" |})
             (pe_resolve e) (promises w)
  /\ requests (_state w') = <[pe_request e := r']> (requests (_state w))
  /\ audit (_state w') = (audit (_state w) ++ [audit_record r'])%list
  /\ _pendingTimers w' = delete requestId (_pendingTimers w)
  /\ clock w' = clock w /\ _gates w' = _gates w /\ _projectDir w' = _projectDir w
  /\ webhook_posts w' = webhook_posts w.
Proof.
  intros Hp Hr. unfold resolveApproval. rewrite Hp. cbn. rewrite Hr. cbn. done.
Qed.

(** [clearTimeout] in a loop only removes timers. *)
Lemma clear_timers_lookup (l : list (string * PendingEntry)) (ts : gmap nat Timer) tid t :
  foldr (fun kv acc => delete (pe_timer kv.2) acc) ts l !! tid = Some t ->
  ts !! tid = Some t.
Proof.
  induction l as [|kv l IH]; cbn; [done|].
  intros Hl. apply lookup_delete_Some in Hl as [_ Hl]. by apply IH.
Qed.

Lemma clear_timers_cleared (l : list (string * PendingEntry)) (ts : gmap nat Timer) kv :
  kv ∈ l ->
  foldr (fun kv acc => delete (pe_timer kv.2) acc) ts l !! pe_timer kv.2 = None.
Proof.
  induction l as [|kv' l IH]; cbn; intros Hin.
  - by apply elem_of_nil in Hin.
  - apply elem_of_cons in Hin as [->|Hin].
    + apply lookup_delete_eq.
    + apply lookup_delete_None. right. by apply IH.
Qed.

(** ** The invariant is established by the constructor and kept by every step *)

Lemma Inv_constructor cwd now files projectDir gates :
  Inv (constructor cwd now files projectDir gates).
Proof. split; cbn; intros *; by rewrite lookup_empty. Qed.

(** Retiring a timer: it leaves the timer table, the entry under its
    request id is removed, and only its own request and promise change. *)
Lemma Inv_retire w w' tid t r' f :
  Inv w ->
  timers w !! tid = Some t ->
  timers w' = delete tid (timers w) ->
  next_timer w' = next_timer w ->
  promises w' = alter f (cb_resolve (t_callback t)) (promises w) ->
  requests (_state w') = <[cb_request (t_callback t) := r']> (requests (_state w)) ->
  _pendingTimers w' = delete (cb_requestId (t_callback t)) (_pendingTimers w) ->
  Inv w'.
Proof.
  intros HI Ht Hts Hnt Hps Hrs Hpt. split.
  - intros tid1 t1. rewrite Hts, Hnt. intros [_ H1]%lookup_delete_Some.
    by eapply inv_timer_fresh.
  - intros tid1 t1. rewrite Hts. intros [_ H1]%lookup_delete_Some.
    by eapply inv_timer_id.
  - intros tid1 t1. rewrite Hts, Hrs. intros [Hne H1]%lookup_delete_Some.
    destruct (inv_timer_request w HI tid1 t1 H1) as (r & Hr & Hs & Hid).
    exists r. split; [|done].
    rewrite list_lookup_insert_ne; [done|].
    intros Heq. apply Hne. by eapply inv_timer_request_inj.
  - intros tid1 t1. rewrite Hts, Hps. intros [Hne H1]%lookup_delete_Some.
    rewrite list_lookup_alter_ne; [by eapply inv_timer_promise|].
    intros Heq. apply Hne. by eapply inv_timer_promise_inj.
  - intros tid1 tid2 t1 t2. rewrite Hts.
    intros [_ H1]%lookup_delete_Some [_ H2]%lookup_delete_Some.
    by eapply inv_timer_request_inj.
  - intros tid1 tid2 t1 t2. rewrite Hts.
    intros [_ H1]%lookup_delete_Some [_ H2]%lookup_delete_Some.
    by eapply inv_timer_promise_inj.
  - intros k e. rewrite Hpt, Hts. intros [Hne He]%lookup_delete_Some.
    destruct (inv_entry w HI k e He) as (t1 & H1 & Hk & Hrq & Hrs').
    exists t1. split; [|done].
    apply lookup_delete_Some. split; [|done].
    intros Heq. rewrite <- Heq, Ht in H1. by simplify_eq.
Qed.

Lemma Inv_requestApproval rnd phase context w :
  Inv w -> Inv (requestApproval rnd phase context w).1.
Proof.
  intros HI. destruct (findGate w phase) as [gate|] eqn:Hg.
  - destruct (requestApproval_gate rnd phase context w gate Hg)
      as (_ & Hts & Hnt & Hps & Hrs & _ & Hpt & _).
    set (w' := (requestApproval rnd phase context w).1) in *.
    assert (Hold : forall tid t, timers w !! tid = Some t -> tid <> next_timer w).
    { intros tid t Ht ->. apply (inv_timer_fresh w HI) in Ht. lia. }
    assert (Hloc : forall tid t, timers w !! tid = Some t ->
              (cb_request (t_callback t) < length (requests (_state w)))%nat).
    { intros tid t Ht. destruct (inv_timer_request w HI tid t Ht) as (r & Hr & _).
      by eapply lookup_lt_Some. }
    assert (Hpr : forall tid t, timers w !! tid = Some t ->
              (cb_resolve (t_callback t) < length (promises w))%nat).
    { intros tid t Ht. eapply lookup_lt_Some. by eapply inv_timer_promise. }
    split.
    + intros tid t. rewrite Hts, Hnt. intros [[<- <-]|[_ Ht]]%lookup_insert_Some; [lia|].
      apply (inv_timer_fresh w HI) in Ht. lia.
    + intros tid t. rewrite Hts. intros [[<- <-]|[_ Ht]]%lookup_insert_Some.
      * apply make_requestId_not_inherited.
      * by eapply inv_timer_id.
    + intros tid t. rewrite Hts, Hrs. intros [[<- <-]|[_ Ht]]%lookup_insert_Some.
      * eexists. split.
        { cbn. rewrite lookup_app_r by lia. by rewrite Nat.sub_diag. }
        done.
      * destruct (inv_timer_request w HI tid t Ht) as (r & Hr & Hs & Hid).
        exists r. split; [|done]. by apply lookup_app_l_Some.
    + intros tid t. rewrite Hts, Hps. intros [[<- <-]|[_ Ht]]%lookup_insert_Some.
      * cbn. rewrite lookup_app_r by lia. by rewrite Nat.sub_diag.
      * apply lookup_app_l_Some. by eapply inv_timer_promise.
    + intros tid1 tid2 t1 t2. rewrite Hts.
      intros [[<- <-]|[_ H1]]%lookup_insert_Some [[<- <-]|[_ H2]]%lookup_insert_Some;
        cbn; try done.
      * intros Heq. apply Hloc in H2. lia.
      * intros Heq. apply Hloc in H1. lia.
      * by eapply inv_timer_request_inj.
    + intros tid1 tid2 t1 t2. rewrite Hts.
      intros [[<- <-]|[_ H1]]%lookup_insert_Some [[<- <-]|[_ H2]]%lookup_insert_Some;
        cbn; try done.
      * intros Heq. apply Hpr in H2. lia.
      * intros Heq. apply Hpr in H1. lia.
      * by eapply inv_timer_promise_inj.
    + intros k e. rewrite Hpt, Hts. intros [[<- <-]|[_ He]]%lookup_insert_Some.
      * eexists. cbn. rewrite lookup_insert_eq. done.
      * destruct (inv_entry w HI k e He) as (t & Ht & Hrest).
        exists t. split; [|done]. rewrite lookup_insert_ne; [done|].
        intros Heq. by eapply Hold.
  - rewrite requestApproval_no_gate by done. cbn.
    destruct HI as [H1 H0 H2 H3 H4 H5 H6]. split; cbn; try done.
    intros tid t Ht. apply lookup_app_l_Some. by eapply H3.
Qed.

Lemma Inv_resolveApproval requestId approved reason w :
  Inv w -> Inv (resolveApproval requestId approved reason w).1.
Proof.
  intros HI. destruct (_pendingTimers w !! requestId) as [e|] eqn:He.
  - destruct (inv_entry w HI _ _ He) as (t & Ht & Hk & Hrq & Hrs).
    destruct (inv_timer_request w HI _ _ Ht) as (r & Hr & _).
    rewrite Hrq in Hr.
    destruct (resolveApproval_fields requestId approved reason w e r He Hr)
      as (_ & Hts & Hnt & Hps & Hrqs & _ & Hpt & _).
    eapply (Inv_retire w _ (pe_timer e) t); eauto.
    + by rewrite Hrs.
    + by rewrite Hrq.
    + by rewrite Hk.
  - by rewrite resolveApproval_none_world.
Qed.

Lemma Inv_destroy w : Inv w -> Inv (destroy w).
Proof.
  intros HI. unfold destroy.
  split; cbn; try (intros *; by rewrite lookup_empty).
  - intros tid t Ht%clear_timers_lookup. by eapply inv_timer_fresh.
  - intros tid t Ht%clear_timers_lookup. by eapply inv_timer_id.
  - intros tid t Ht%clear_timers_lookup. by eapply inv_timer_request.
  - intros tid t Ht%clear_timers_lookup. by eapply inv_timer_promise.
  - intros tid1 tid2 t1 t2 H1%clear_timers_lookup H2%clear_timers_lookup.
    by eapply inv_timer_request_inj.
  - intros tid1 tid2 t1 t2 H1%clear_timers_lookup H2%clear_timers_lookup.
    by eapply inv_timer_promise_inj.
Qed.

Lemma Inv_timer_fires w tid t :
  Inv w -> timers w !! tid = Some t ->
  Inv (timeout_callback (t_callback t) (set_timers (delete tid (timers w)) w)).
Proof.
  intros HI Ht.
  destruct (inv_timer_request w HI _ _ Ht) as (r & Hr & _).
  set (w0 := set_timers (delete tid (timers w)) w).
  destruct (timeout_callback_fields (t_callback t) w0 r Hr)
    as (Hts & Hnt & Hps & Hrqs & _ & Hpt & _).
  eapply (Inv_retire w _ tid t); eauto.
Qed.

Lemma Inv_step e w w' : Inv w -> step e w = Some w' -> Inv w'.
Proof.
  intros HI. destruct e as [rnd phase context|requestId ok reason| |tid|dt]; cbn.
  - intros [= <-]. by apply Inv_requestApproval.
  - intros [= <-]. by apply Inv_resolveApproval.
  - intros [= <-]. by apply Inv_destroy.
  - destruct (timers w !! tid) as [t|] eqn:Ht; [|done].
    destruct (due t (clock w)); [|done].
    intros [= <-]. by apply Inv_timer_fires.
  - destruct (bool_decide (0 < dt) && none_overdue (timers w) (clock w + dt)); [|done].
    intros [= <-]. destruct HI. by split.
Qed.

Lemma Inv_run es w w' : Inv w -> run es w = Some w' -> Inv w'.
Proof.
  revert w. induction es as [|e es IH]; cbn; intros w HI.
  - by intros [= <-].
  - destruct (step e w) as [w1|] eqn:Hs; [|done].
    intros Hr. eapply IH; [|done]. by eapply Inv_step.
Qed.

(** ** Steps that retire a timer *)

Lemma timer_fires_retires w tid t r :
  timers w !! tid = Some t ->
  requests (_state w) !! cb_request (t_callback t) = Some r ->
  Retires w (timeout_callback (t_callback t) (set_timers (delete tid (timers w)) w))
    tid t (timed_out_request (cb_gate (t_callback t)) (clock w) r)
    {| res_approved := true;
       res_reason := timeout_reason (cb_gate (t_callback t));
       res_method := "timeout" |}.
Proof.
  intros Ht Hr.
  set (w0 := set_timers (delete tid (timers w)) w).
  destruct (timeout_callback_fields (t_callback t) w0 r Hr)
    as (Hts & Hnt & Hps & Hrqs & Hau & Hpt & _).
  by split.
Qed.

Lemma resolveApproval_retires requestId approved reason w e :
  Inv w ->
  _pendingTimers w !! requestId = Some e ->
  exists t r,
    requests (_state w) !! pe_request e = Some r
    /\ r_status r = Pending
    /\ cb_requestId (t_callback t) = requestId
    /\ cb_request (t_callback t) = pe_request e
    /\ cb_resolve (t_callback t) = pe_resolve e
    /\ Retires w (resolveApproval requestId approved reason w).1 (pe_timer e) t
         (resolved_request approved reason (clock w) r)
         {| res_approved := approved;
            res_reason := manual_reason approved reason;
            res_method := "manual" |}.
Proof.
  intros HI He.
  destruct (inv_entry w HI _ _ He) as (t & Ht & Hk & Hrq & Hrs).
  destruct (inv_timer_request w HI _ _ Ht) as (r & Hr & Hst & _).
  rewrite Hrq in Hr.
  destruct (resolveApproval_fields requestId approved reason w e r He Hr)
    as (_ & Hts & Hnt & Hps & Hrqs & Hau & Hpt & _).
  exists t, r. repeat (split; [done|]).
  split; try done.
  - by rewrite Hrs.
  - by rewrite Hrq.
  - by rewrite Hk.
Qed.

Lemma Retires_request w w' tid t r' v loc r :
  Inv w -> Retires w w' tid t r' v ->
  requests (_state w) !! loc = Some r ->
  (loc = cb_request (t_callback t) /\ r_status r = Pending
   /\ requests (_state w') !! loc = Some r')
  \/ (loc <> cb_request (t_callback t) /\ requests (_state w') !! loc = Some r).
Proof.
  intros HI HR Hr. rewrite (ret_requests _ _ _ _ _ _ HR).
  destruct (decide (loc = cb_request (t_callback t))) as [->|Hne].
  - left. split; [done|].
    destruct (inv_timer_request w HI _ _ (ret_timer _ _ _ _ _ _ HR)) as (r0 & Hr0 & Hs & _).
    rewrite Hr in Hr0. injection Hr0 as <-. split; [done|].
    apply list_lookup_insert_eq. by eapply lookup_lt_Some.
  - right. split; [done|]. by rewrite list_lookup_insert_ne.
Qed.

Lemma Retires_promise w w' tid t r' v p pr :
  Inv w -> Retires w w' tid t r' v ->
  promises w !! p = Some pr ->
  (p = cb_resolve (t_callback t) /\ pr = promise_pending
   /\ promises w' !! p = Some {| settled := Some v; resolve_calls := 1 |})
  \/ (p <> cb_resolve (t_callback t) /\ promises w' !! p = Some pr).
Proof.
  intros HI HR Hp. rewrite (ret_promises _ _ _ _ _ _ HR).
  destruct (decide (p = cb_resolve (t_callback t))) as [->|Hne].
  - left. split; [done|].
    pose proof (inv_timer_promise w HI _ _ (ret_timer _ _ _ _ _ _ HR)) as Hp0.
    rewrite Hp in Hp0. injection Hp0 as ->. split; [done|].
    rewrite list_lookup_alter_eq, Hp. done.
  - right. split; [done|]. by rewrite list_lookup_alter_ne.
Qed.

(** ** What one step does to a request, a promise and a timer *)

Lemma step_request e w w' loc r :
  Inv w -> step e w = Some w' ->
  requests (_state w) !! loc = Some r ->
  requests (_state w') !! loc = Some r
  \/ (r_status r = Pending
      /\ ((exists tid gate, e = TimerFires tid
             /\ requests (_state w') !! loc
                  = Some (timed_out_request gate (clock w) r))
          \/ (exists requestId approved reason,
                e = CallResolve requestId approved reason
                /\ requests (_state w') !! loc
                     = Some (resolved_request approved reason (clock w) r)))).
Proof.
  intros HI Hs Hr.
  destruct e as [rnd phase context|requestId ok reason| |tid|dt]; cbn in Hs.
  - injection Hs as <-. left.
    destruct (findGate w phase) as [gate|] eqn:Hg.
    + destruct (requestApproval_gate rnd phase context w gate Hg)
        as (_ & _ & _ & _ & Hrs & _).
      rewrite Hrs. by apply lookup_app_l_Some.
    + by rewrite requestApproval_no_gate.
  - injection Hs as <-.
    destruct (_pendingTimers w !! requestId) as [e|] eqn:He.
    + destruct (resolveApproval_retires requestId ok reason w e HI He)
        as (t & r0 & Hr0 & Hst & _ & Hrq & _ & HR).
      destruct (Retires_request _ _ _ _ _ _ loc r HI HR Hr) as [(-> & Hp & Hr')|[_ Hr']].
      * right. split; [done|]. right. exists requestId, ok, reason. split; [done|].
        rewrite Hrq in Hr. rewrite Hr in Hr0. injection Hr0 as <-. done.
      * by left.
    + left. by rewrite resolveApproval_none_world.
  - injection Hs as <-. by left.
  - destruct (timers w !! tid) as [t|] eqn:Ht; [|done].
    destruct (due t (clock w)); [|done]. injection Hs as <-.
    destruct (inv_timer_request w HI _ _ Ht) as (r0 & Hr0 & _).
    pose proof (timer_fires_retires w tid t r0 Ht Hr0) as HR.
    destruct (Retires_request _ _ _ _ _ _ loc r HI HR Hr) as [(-> & Hp & Hr')|[_ Hr']].
    * right. split; [done|]. left. exists tid, (cb_gate (t_callback t)). split; [done|].
      rewrite Hr in Hr0. injection Hr0 as <-. done.
    * by left.
  - destruct (bool_decide (0 < dt) && none_overdue (timers w) (clock w + dt)); [|done].
    injection Hs as <-. by left.
Qed.


(** Timer ids grow, and a timer that left the table never comes back. *)
Lemma step_dead_timer e w w' tid :
  step e w = Some w' ->
  timers w !! tid = None -> (tid < next_timer w)%nat ->
  timers w' !! tid = None /\ (tid < next_timer w')%nat.
Proof.
  intros Hs Hn Hlt.
  destruct e as [rnd phase context|requestId ok reason| |tid'|dt]; cbn in Hs.
  - injection Hs as <-.
    destruct (findGate w phase) as [gate|] eqn:Hg.
    + destruct (requestApproval_gate rnd phase context w gate Hg)
        as (_ & Hts & Hnt & _).
      rewrite Hts, Hnt. split; [|lia].
      rewrite lookup_insert_ne; [done|lia].
    + by rewrite requestApproval_no_gate.
  - injection Hs as <-. unfold resolveApproval.
    destruct (_pendingTimers w !! requestId) as [e|];
      [|by destruct (inherited requestId)]. cbn.
    destruct (requests (_state w) !! pe_request e); cbn;
      (split; [|done]); apply lookup_delete_None; by right.
  - injection Hs as <-. unfold destroy. cbn. split; [|done].
    destruct (foldr _ _ _ !! tid) as [t|] eqn:Ht; [|done].
    apply clear_timers_lookup in Ht. congruence.
  - destruct (timers w !! tid') as [t|] eqn:Ht; [|done].
    destruct (due t (clock w)); [|done]. injection Hs as <-.
    unfold timeout_callback. cbn.
    destruct (requests (_state w) !! cb_request (t_callback t)); cbn;
      (split; [|done]); apply lookup_delete_None; by right.
  - destruct (bool_decide (0 < dt) && none_overdue (timers w) (clock w + dt)); [|done].
    by injection Hs as <-.
Qed.

(** ** Timers run on time *)


Lemma timer_after_in_range delay :
  (1 <= delay)%Q -> (delay <= TIMEOUT_MAX)%Q -> timer_after delay = delay.
Proof.
  intros H1%Qle_bool_iff H2%Qle_bool_iff. unfold timer_after. by rewrite H1, H2.
Qed.






(** ** A pending request and its timer *)






(** ** Terminal requests, settled promises and retired timers stay as they are *)

Lemma terminal_request_step e w w' loc r :
  Inv w -> step e w = Some w' ->
  requests (_state w) !! loc = Some r -> terminal (r_status r) = true ->
  requests (_state w') !! loc = Some r.
Proof.
  intros HI Hs Hr Ht.
  destruct (step_request e w w' loc r HI Hs Hr) as [Hr'|[Hp _]]; [done|].
  by rewrite Hp in Ht.
Qed.

Lemma terminal_request_run es w w' loc r :
  Inv w -> run es w = Some w' ->
  requests (_state w) !! loc = Some r -> terminal (r_status r) = true ->
  requests (_state w') !! loc = Some r.
Proof.
  revert w. induction es as [|e es IH]; cbn; intros w HI.
  - by intros [= <-].
  - destruct (step e w) as [w1|] eqn:Hs; [|done].
    intros Hrun Hr Ht. eapply (IH w1); [by eapply Inv_step|done| |done].
    by eapply terminal_request_step.
Qed.


Lemma dead_timer_run es w w' tid :
  run es w = Some w' ->
  timers w !! tid = None -> (tid < next_timer w)%nat ->
  timers w' !! tid = None /\ (tid < next_timer w')%nat.
Proof.
  revert w. induction es as [|e es IH]; cbn; intros w.
  - by intros [= <-].
  - destruct (step e w) as [w1|] eqn:Hs; [|done].
    intros Hrun Hn Hlt.
    destruct (step_dead_timer e w w1 tid Hs Hn Hlt) as [Hn1 Hlt1].
    by eapply (IH w1).
Qed.


Lemma legal_move_timed_out gate now r :
  r_status r = Pending ->
  legal_move (r_status r) (r_status (timed_out_request gate now r)).
Proof. intros ->. by right. Qed.

Lemma legal_move_resolved approved reason now r :
  r_status r = Pending ->
  legal_move (r_status r) (r_status (resolved_request approved reason now r)).
Proof. intros ->. right. split; [done|]. by destruct approved. Qed.

(** ** The event loop gets there *)






(** ** Timeout, idempotence and the state machine *)


Lemma UniqueIds_constructor cwd now files projectDir gates :
  UniqueIds (constructor cwd now files projectDir gates).
Proof. intros loc r _ _. cbn. apply lookup_empty. Qed.

Lemma UniqueIds_retires w w' tid t r' v :
  Inv w -> UniqueIds w -> Retires w w' tid t r' v ->
  r_id r' = cb_requestId (t_callback t) -> UniqueIds w'.
Proof.
  intros HI HU HR Hid loc r.
  rewrite (ret_requests _ _ _ _ _ _ HR), (ret_pending _ _ _ _ _ _ HR).
  intros Hr Ht. apply lookup_delete_None.
  destruct (decide (loc = cb_request (t_callback t))) as [->|Hne].
  - left. apply list_lookup_insert_Some in Hr as [(_ & <- & _)|[Hc _]]; done.
  - right. rewrite list_lookup_insert_ne in Hr by done. by eapply HU.
Qed.

(** Unique ids are kept by every step whose generated id is fresh. *)
Lemma UniqueIds_step e w w' :
  Inv w -> UniqueIds w -> fresh_id e w -> step e w = Some w' -> UniqueIds w'.
Proof.
  intros HI HU Hf Hs.
  destruct e as [rnd phase context|requestId ok reason| |tid|dt]; cbn in Hs, Hf.
  - injection Hs as <-.
    destruct (findGate w phase) as [gate|] eqn:Hg.
    + destruct (requestApproval_gate rnd phase context w gate Hg)
        as (_ & _ & _ & _ & Hrs & _ & Hpt & _).
      intros loc r. rewrite Hrs, Hpt. intros Hr Ht.
      apply lookup_app_Some in Hr as [Hr|[_ Hr]].
      * rewrite lookup_insert_ne; [by eapply HU|]. intros Heq. by eapply Hf.
      * apply list_lookup_singleton_Some in Hr as [_ <-]. done.
    + by rewrite requestApproval_no_gate.
  - injection Hs as <-.
    destruct (_pendingTimers w !! requestId) as [e|] eqn:He.
    + destruct (resolveApproval_retires requestId ok reason w e HI He)
        as (t & r0 & Hr0 & _ & Hk & Hrq & _ & HR).
      eapply UniqueIds_retires; eauto. cbn.
      destruct (inv_timer_request w HI _ _ (ret_timer _ _ _ _ _ _ HR)) as (r1 & Hr1 & _ & Hid).
      rewrite Hrq, Hr0 in Hr1. by injection Hr1 as <-.
    + by rewrite resolveApproval_none_world.
  - injection Hs as <-. intros loc r _ _. cbn. apply lookup_empty.
  - destruct (timers w !! tid) as [t|] eqn:Ht; [|done].
    destruct (due t (clock w)); [|done]. injection Hs as <-.
    destruct (inv_timer_request w HI _ _ Ht) as (r0 & Hr0 & _ & Hid).
    eapply UniqueIds_retires; eauto using timer_fires_retires.
  - destruct (bool_decide (0 < dt) && none_overdue (timers w) (clock w + dt)); [|done].
    by injection Hs as <-.
Qed.


(** C3.  A request's status only ever moves from [pending] to a terminal
    status, and a terminal request is never changed again.  A timer that ran
    leaves no entry for a manual resolution to find, and a manual
    resolution clears the timer, which can never run afterwards. *)
Theorem status_only_moves_to_terminal w :
  Inv w ->
  (forall e w' loc r,
     step e w = Some w' -> requests (_state w) !! loc = Some r ->
     exists r', requests (_state w') !! loc = Some r'
                /\ legal_move (r_status r) (r_status r')
                /\ (terminal (r_status r) = true -> r' = r))
  /\ (forall es w' loc r,
       run es w = Some w' -> requests (_state w) !! loc = Some r ->
       terminal (r_status r) = true -> requests (_state w') !! loc = Some r)
  /\ (forall tid t w1,
       timers w !! tid = Some t -> step (TimerFires tid) w = Some w1 ->
       _pendingTimers w1 !! cb_requestId (t_callback t) = None
       /\ forall approved reason,
            resolveApproval (cb_requestId (t_callback t)) approved reason w1
            = (w1, Returned false))
  /\ (forall requestId approved reason e,
       _pendingTimers w !! requestId = Some e ->
       let w1 := (resolveApproval requestId approved reason w).1 in
       _pendingTimers w1 !! requestId = None
       /\ timers w1 !! pe_timer e = None
       /\ forall es w2, run es w1 = Some w2 -> step (TimerFires (pe_timer e)) w2 = None).
Proof.
  intros HI. split; [|split; [|split]].
  - intros e w' loc r Hs Hr.
    destruct (step_request e w w' loc r HI Hs Hr)
      as [Hr'|[Hp [(tid & gate & _ & Hr')|(k & a & rs & _ & Hr')]]].
    + exists r. split; [done|]. split; [by left|done].
    + eexists. split; [exact Hr'|]. split; [by apply legal_move_timed_out|].
      by rewrite Hp.
    + eexists. split; [exact Hr'|]. split; [by apply legal_move_resolved|].
      by rewrite Hp.
  - intros es w' loc r Hrun Hr Ht. by eapply terminal_request_run.
  - intros tid t w1 Ht Hs. cbn in Hs. rewrite Ht in Hs.
    destruct (due t (clock w)); [|done]. injection Hs as <-.
    destruct (inv_timer_request w HI _ _ Ht) as (r0 & Hr0 & _).
    pose proof (timer_fires_retires w tid t r0 Ht Hr0) as HR.
    assert (Hnone : _pendingTimers
              (timeout_callback (t_callback t) (set_timers (delete tid (timers w)) w))
              !! cb_requestId (t_callback t) = None).
    { rewrite (ret_pending _ _ _ _ _ _ HR). apply lookup_delete_eq. }
    split; [done|]. intros a rs. apply resolveApproval_none; [done|].
    by eapply inv_timer_id.
  - intros requestId approved reason e He w1.
    destruct (resolveApproval_retires requestId approved reason w e HI He)
      as (t & r & _ & _ & Hk & _ & _ & HR).
    fold w1 in HR.
    assert (Hdead : timers w1 !! pe_timer e = None).
    { rewrite (ret_timers _ _ _ _ _ _ HR). apply lookup_delete_eq. }
    split; [|split; [done|]].
    + rewrite (ret_pending _ _ _ _ _ _ HR), Hk. apply lookup_delete_eq.
    + intros es w2 Hrun.
      destruct (dead_timer_run es w1 w2 (pe_timer e) Hrun Hdead) as [Hn _].
      { rewrite (ret_next _ _ _ _ _ _ HR).
        eapply inv_timer_fresh; [done|]. exact (ret_timer _ _ _ _ _ _ HR). }
      cbn. by rewrite Hn.
Qed.

(** C4.  Without a gate for the phase the promise is already resolved with
    [{approved: true, method: 'auto'}]; no request is created, nothing is
    written, no timer is armed and no webhook is sent. *)
Theorem requestApproval_without_gate rnd phase context w :
  findGate w phase = None ->
  let w' := (requestApproval rnd phase context w).1 in
  let p := (requestApproval rnd phase context w).2 in
  promises w' !! p =
    Some {| settled := Some {| res_approved := true;
                               res_reason := "No approval gate configured for phase: " ++ phase;
                               res_method := "auto" |};
            resolve_calls := 1 |}
  /\ _state w' = _state w
  /\ getPendingRequests w' = getPendingRequests w
  /\ fs w' = fs w /\ fs_history w' = fs_history w
  /\ timers w' = timers w /\ next_timer w' = next_timer w
  /\ _pendingTimers w' = _pendingTimers w
  /\ webhook_posts w' = webhook_posts w.
Proof.
  intros Hg. cbn zeta. rewrite requestApproval_no_gate by done. cbn.
  split; [|done].
  rewrite lookup_app_r by lia. by rewrite Nat.sub_diag.
Qed.

(** ** Persistence *)






(** C8.  When the state file cannot be read, or its content does not parse,
    the constructor still returns a manager, whose state is the empty one. *)
Theorem constructor_survives_corrupt_state_file cwd now files projectDir gates :
  let w := constructor cwd now files projectDir gates in
  (readFileSync files (_stateFile w) = None
   \/ exists raw, readFileSync files (_stateFile w) = Some raw
                  /\ JSON_parse raw = None) ->
  _state w = empty_state /\ _pendingTimers w = ∅ /\ Inv w.
Proof.
  intros w Hbad.
  split; [|split; [done|apply Inv_constructor]].
  unfold w, constructor, _stateFile in *. cbn in *. unfold _loadState.
  destruct (existsSync files _); [|done].
  destruct Hbad as [->|(raw & -> & ->)]; done.
Qed.



End ManagerProofs.

(* ------------------------------------------------------------------- *)
(** ** The manager on the gates of the test-suite *)
(* ------------------------------------------------------------------- *)

(** The cases of [approval.test.js]. *)
Example test_find_gate_by_phase :
  g_name <$> findGate test_world "deploy" = Some "pre-deploy".
Proof. reflexivity. Qed.

Example test_has_gate :
  hasGate test_world "deploy" = true /\ hasGate test_world "build" = false.
Proof. split; reflexivity. Qed.

Example test_unknown_request_id :
  @resolveApproval demo_runtime "nonexistent-id" true None test_world
  = (test_world, Returned false).
Proof. reflexivity. Qed.

Example test_resolve_manually :
  let w1 := (@requestApproval demo_runtime "abc123" "release" (JObj []) test_world).1 in
  let w2 := (@resolveApproval demo_runtime "apr-1000-abc123" true (Some "LGTM") w1).1 in
  r_id <$> getPendingRequests w1 = ["apr-1000-abc123"]
  /\ getPendingRequests w2 = []
  /\ settled <$> promises w2 !! 0%nat
     = Some (Some {| res_approved := true; res_reason := "LGTM";
                     res_method := "manual" |}).
Proof. vm_compute. done. Qed.

Example test_manual_rejection :
  let w1 := (@requestApproval demo_runtime "abc123" "release" (JObj []) test_world).1 in
  let w2 := (@resolveApproval demo_runtime "apr-1000-abc123" false (Some "Not ready") w1).1 in
  (r_status <$> requests (_state w2) !! 0%nat) = Some Rejected
  /\ settled <$> promises w2 !! 0%nat
     = Some (Some {| res_approved := false; res_reason := "Not ready";
                     res_method := "manual" |}).
Proof. vm_compute. done. Qed.

(** C2.  An id that no request has is to be answered with [false].  The id
    "constructor" is one, for every manager, but [_pendingTimers] is a plain
    object: the lookup of line 178 finds [Object.prototype.constructor], the
    guard of line 179 lets it through, and the call throws a TypeError at
    line 185 instead of returning [false].  The state is left unchanged. *)
Theorem resolveApproval_throws_on_prototype_name :
  forall `{JSRuntime} cwd now files projectDir gates approved reason,
    let w := constructor cwd now files projectDir gates in
    _pendingTimers w !! "constructor" = None
    /\ resolveApproval "constructor" approved reason w = (w, Threw "TypeError")
    /\ resolveApproval "nonexistent-id" approved reason w = (w, Returned false).
Proof. intros. split; [apply lookup_empty|]. split; reflexivity. Qed.



Lemma status_only_moves_to_terminal_witness :
  let w1 := (@requestApproval demo_runtime "abc123" "release" JUndefined test_world).1 in
  let w2 := (@resolveApproval demo_runtime "apr-1000-abc123" false None w1).1 in
  _pendingTimers w2 !! "apr-1000-abc123" = None
  /\ timers w2 !! 0%nat = None
  /\ @step demo_runtime (TimerFires 0) w2 = None.
Proof.
  intros w1 w2.
  destruct (@status_only_moves_to_terminal demo_runtime w1
              (@Inv_requestApproval demo_runtime _ _ _ _
                 (@Inv_constructor demo_runtime _ _ _ _ _))) as (_ & _ & _ & Hmanual).
  destruct (Hmanual "apr-1000-abc123" false None
              {| pe_timer := 0; pe_resolve := 0; pe_request := 0 |} eq_refl)
    as (Hgone & Hdead & Hnever).
  split; [done|]. split; [done|]. exact (Hnever [] _ eq_refl).
Defined.

Lemma requestApproval_without_gate_witness :
  let w' := (@requestApproval demo_runtime "abc123" "build" (JObj []) test_world).1 in
  promises w' !! 0%nat
  = Some {| settled := Some {| res_approved := true;
                               res_reason := "No approval gate configured for phase: build";
                               res_method := "auto" |};
            resolve_calls := 1 |}
  /\ _state w' = _state test_world.
Proof.
  intros w'.
  destruct (@requestApproval_without_gate demo_runtime "abc123" "build" (JObj [])
              test_world eq_refl) as (Hp & Hs & _).
  by split.
Defined.



Lemma constructor_survives_corrupt_state_file_witness :
  _state (@constructor demo_runtime "/tmp" 1000
            {[ "/srv/app/.loki/state/approvals.json" := File "{ requests: [" ]}
            (Some "/srv/app") None)
  = empty_state.
Proof.
  apply (@constructor_survives_corrupt_state_file demo_runtime "/tmp" 1000
           {[ "/srv/app/.loki/state/approvals.json" := File "{ requests: [" ]}
           (Some "/srv/app") None).
  right. exists "{ requests: [". by split.
Defined.



(* =================================================================== *)
(** * Properties of the audit ledger *)
(* =================================================================== *)

Section LedgerProofs.
Context `{LedgerFormat}.




(** ** What [append] writes *)

Lemma append_all_segment cs l :
  segment (append_all cs l) = (segment l ++ chain_lines (cursor l) cs)%list.
Proof.
  revert l. induction cs as [|c cs IH]; intros l; cbn.
  - by rewrite app_nil_r.
  - unfold append_all in IH. rewrite IH. cbn. by rewrite <- app_assoc.
Qed.

Lemma written_segment cs :
  segment (append_all cs new_segment) = chain_lines GENESIS cs.
Proof. by rewrite append_all_segment. Qed.

Lemma length_chain_lines prev cs : length (chain_lines prev cs) = length cs.
Proof. revert prev. induction cs as [|c cs IH]; intros prev; cbn; [done|]. by rewrite IH. Qed.

Lemma verify_chain_lines prev n cs :
  verify_from prev n (chain_lines prev cs)
  = {| valid := true; entriesChecked := n + length cs; firstTamperedLine := None |}.
Proof.
  revert prev n. induction cs as [|c cs IH]; intros prev n; cbn.
  - by rewrite Nat.add_0_r.
  - rewrite String.eqb_refl, IH. by rewrite Nat.add_succ_r.
Qed.

Lemma chain_lines_lookup prev cs i l :
  chain_lines prev cs !! i = Some l ->
  exists e, l = Entry e
    /\ cs !! i = Some (content e)
    /\ chain_hash e
       = chain (match i with
                | O => prev
                | S j => match chain_lines prev cs !! j with
                         | Some (Entry e') => chain_hash e'
                         | _ => GENESIS
                         end
                end) (content e).
Proof.
  revert prev i. induction cs as [|c cs IH]; intros prev i Hl; cbn in Hl; [done|].
  destruct i as [|i]; cbn in Hl.
  - injection Hl as <-. eexists. by split.
  - destruct (IH _ _ Hl) as (e & -> & Hc & Hh). exists e. split; [done|]. split; [done|].
    rewrite Hh. destruct i as [|i]; cbn; done.
Qed.

(** C5.  A segment written by [N] appends verifies: [valid] with
    [entriesChecked = N].  Every entry's [chain_hash] is the digest of the
    previous entry's [chain_hash] followed by the serialization of its
    other fields, the first entry being chained from 64 zero characters. *)
Theorem verify_accepts_written_segment (cs : list EntryContent) :
  let seg := segment (append_all cs new_segment) in
  verify seg
  = {| valid := true; entriesChecked := length cs; firstTamperedLine := None |}
  /\ length seg = length cs
  /\ (forall i l, seg !! i = Some l ->
       exists e, l = Entry e
         /\ cs !! i = Some (content e)
         /\ chain_hash e = digest (previous_hash seg i ++ serialize (content e)))
  /\ previous_hash seg 0 = GENESIS
  /\ String.length GENESIS = 64%nat
  /\ GENESIS = String.concat "" (replicate 64 "0").
Proof.
  cbn zeta. rewrite written_segment.
  split; [apply (verify_chain_lines GENESIS 0)|].
  split; [apply length_chain_lines|].
  split; [|done].
  intros i l Hl. destruct (chain_lines_lookup _ _ _ _ Hl) as (e & -> & Hc & Hh).
  exists e. split; [done|]. split; [done|].
  rewrite Hh. unfold chain, previous_hash. by destruct i.
Qed.

(** ** Recomputing a segment that was edited *)










End LedgerProofs.

(* ------------------------------------------------------------------- *)
(** ** The ledger on three entries *)
(* ------------------------------------------------------------------- *)

(** End-to-end scenario 1 of the specification. *)
Example scenario_two_entries_verify :
  @verify demo_format
    (segment (@append_all demo_format
                [demo_entry "session.start" "user"; demo_entry "session.stop" "user"]
                new_segment))
  = {| valid := true; entriesChecked := 2; firstTamperedLine := None |}.
Proof. reflexivity. Qed.



(* =================================================================== *)
(** * More about the approval gate manager *)
(* =================================================================== *)

Section ManagerMore.
Context `{JSRuntime}.

Lemma reachable_Inv w : reachable w -> Inv w.
Proof.
  intros (cwd & now & files & pd & gates & es & Hrun).
  eapply Inv_run; [apply Inv_constructor|exact Hrun].
Qed.

Lemma reachable_run es w w' : reachable w -> run es w = Some w' -> reachable w'.
Proof.
  intros (cwd & now & files & pd & gates & es0 & Hrun0) Hrun.
  exists cwd, now, files, pd, gates, (es0 ++ es)%list.
  revert Hrun0. generalize (constructor cwd now files pd gates).
  induction es0 as [|e es0 IH]; intros w0; cbn.
  - by intros [= ->].
  - destruct (step e w0); [apply IH|done].
Qed.

(** ** Gate lookup *)

Lemma findGate_in_first gs phase :
  match findGate_in gs phase with
  | Some g =>
      exists i, gs !! i = Some g /\ g_phase g = phase
                /\ forall j g', (j < i)%nat -> gs !! j = Some g' -> g_phase g' <> phase
  | None => forall g, g ∈ gs -> g_phase g <> phase
  end.
Proof.
  induction gs as [|g gs IH]; cbn.
  - intros g Hg. by apply elem_of_nil in Hg.
  - destruct (String.eqb (g_phase g) phase) eqn:He.
    + apply String.eqb_eq in He. exists 0%nat. split; [done|]. split; [done|].
      intros j g' Hj. lia.
    + apply String.eqb_neq in He. destruct (findGate_in gs phase) as [g0|].
      * destruct IH as (i & Hi & Hp & Hbefore). exists (S i).
        split; [done|]. split; [done|].
        intros [|j] g' Hj Hl; cbn in Hl.
        { by injection Hl as <-. }
        eapply Hbefore; [|done]. lia.
      * intros g' [->|Hin]%elem_of_cons; [done|by apply IH].
Qed.

(** X1.  [findGate] returns the first gate of the configuration whose phase
    is the one asked for (with duplicate phases the earlier gate wins), and
    nothing exactly when no gate has that phase; [hasGate] says whether
    some gate has it. *)
Theorem findGate_first_match w phase :
  match findGate w phase with
  | Some g =>
      exists i, _gates w !! i = Some g /\ g_phase g = phase
                /\ forall j g', (j < i)%nat -> _gates w !! j = Some g' ->
                                g_phase g' <> phase
  | None => forall g, g ∈ _gates w -> g_phase g <> phase
  end
  /\ (hasGate w phase = true <-> exists g, g ∈ _gates w /\ g_phase g = phase).
Proof.
  split; [apply findGate_in_first|].
  unfold hasGate, findGate. pose proof (findGate_in_first (_gates w) phase) as Hf.
  rewrite bool_decide_eq_true. split.
  - intros Hne. destruct (findGate_in (_gates w) phase) as [g|]; [|done].
    destruct Hf as (i & Hi & Hp & _). exists g. split; [|done].
    by eapply list_elem_of_lookup_2.
  - intros (g & Hin & Hp) Hnone. rewrite Hnone in Hf. by eapply Hf.
Qed.

(** ** What a step can touch *)

Lemma step_timer_origin e w w' tid t :
  step e w = Some w' -> timers w' !! tid = Some t ->
  timers w !! tid = Some t
  \/ (tid = next_timer w
      /\ cb_request (t_callback t) = length (requests (_state w))
      /\ cb_resolve (t_callback t) = length (promises w)).
Proof.
  intros Hs Ht.
  destruct e as [rnd phase context|requestId ok reason| |tid'|dt]; cbn in Hs.
  - injection Hs as <-.
    destruct (findGate w phase) as [gate|] eqn:Hg.
    + destruct (requestApproval_gate rnd phase context w gate Hg) as (_ & Hts & _).
      rewrite Hts in Ht.
      apply lookup_insert_Some in Ht as [[<- <-]|[_ Ht]]; [by right|by left].
    + rewrite requestApproval_no_gate in Ht by done. by left.
  - injection Hs as <-. left. unfold resolveApproval in Ht.
    destruct (_pendingTimers w !! requestId) as [e|];
      [|by destruct (inherited requestId)].
    cbn in Ht. destruct (requests (_state w) !! pe_request e); cbn in Ht;
      by apply lookup_delete_Some in Ht as [_ Ht].
  - injection Hs as <-. left. unfold destroy in Ht. cbn in Ht.
    by eapply clear_timers_lookup.
  - destruct (timers w !! tid') as [t'|] eqn:Ht'; [|done].
    destruct (due t' (clock w)); [|done]. injection Hs as <-. left.
    unfold timeout_callback in Ht. cbn in Ht.
    destruct (requests (_state w) !! cb_request (t_callback t')); cbn in Ht;
      by apply lookup_delete_Some in Ht as [_ Ht].
  - destruct (bool_decide (0 < dt) && none_overdue (timers w) (clock w + dt)); [|done].
    injection Hs as <-. by left.
Qed.

(** A request object is written only through an armed timer or its entry. *)
Lemma step_request_watched e w w' loc r :
  Inv w -> step e w = Some w' ->
  requests (_state w) !! loc = Some r ->
  requests (_state w') !! loc = Some r
  \/ exists tid t, timers w !! tid = Some t /\ cb_request (t_callback t) = loc.
Proof.
  intros HI Hs Hr.
  destruct e as [rnd phase context|requestId ok reason| |tid|dt]; cbn in Hs.
  - injection Hs as <-. left.
    destruct (findGate w phase) as [gate|] eqn:Hg.
    + destruct (requestApproval_gate rnd phase context w gate Hg)
        as (_ & _ & _ & _ & Hrs & _).
      rewrite Hrs. by apply lookup_app_l_Some.
    + by rewrite requestApproval_no_gate.
  - injection Hs as <-.
    destruct (_pendingTimers w !! requestId) as [e|] eqn:He.
    + destruct (resolveApproval_retires requestId ok reason w e HI He)
        as (t & r0 & _ & _ & _ & _ & _ & HR).
      destruct (Retires_request _ _ _ _ _ _ loc r HI HR Hr) as [(-> & _)|[_ Hr']];
        [|by left].
      right. exists (pe_timer e), t. split; [|done]. apply (ret_timer _ _ _ _ _ _ HR).
    + left. by rewrite resolveApproval_none_world.
  - injection Hs as <-. by left.
  - destruct (timers w !! tid) as [t|] eqn:Ht; [|done].
    destruct (due t (clock w)); [|done]. injection Hs as <-.
    destruct (inv_timer_request w HI _ _ Ht) as (r0 & Hr0 & _).
    pose proof (timer_fires_retires w tid t r0 Ht Hr0) as HR.
    destruct (Retires_request _ _ _ _ _ _ loc r HI HR Hr) as [(-> & _)|[_ Hr']];
      [|by left].
    right. by exists tid, t.
  - destruct (bool_decide (0 < dt) && none_overdue (timers w) (clock w + dt)); [|done].
    injection Hs as <-. by left.
Qed.

Lemma step_promise_held e w w' p pr :
  Inv w -> step e w = Some w' ->
  promises w !! p = Some pr ->
  promises w' !! p = Some pr
  \/ exists tid t, timers w !! tid = Some t /\ cb_resolve (t_callback t) = p.
Proof.
  intros HI Hs Hp.
  destruct e as [rnd phase context|requestId ok reason| |tid|dt]; cbn in Hs.
  - injection Hs as <-. left.
    destruct (findGate w phase) as [gate|] eqn:Hg.
    + destruct (requestApproval_gate rnd phase context w gate Hg)
        as (_ & _ & _ & Hps & _).
      rewrite Hps. by apply lookup_app_l_Some.
    + rewrite requestApproval_no_gate by done. cbn. by apply lookup_app_l_Some.
  - injection Hs as <-.
    destruct (_pendingTimers w !! requestId) as [e|] eqn:He.
    + destruct (resolveApproval_retires requestId ok reason w e HI He)
        as (t & r0 & _ & _ & _ & _ & _ & HR).
      destruct (Retires_promise _ _ _ _ _ _ p pr HI HR Hp) as [(-> & _)|[_ Hp']];
        [|by left].
      right. exists (pe_timer e), t. split; [|done]. apply (ret_timer _ _ _ _ _ _ HR).
    + left. by rewrite resolveApproval_none_world.
  - injection Hs as <-. by left.
  - destruct (timers w !! tid) as [t|] eqn:Ht; [|done].
    destruct (due t (clock w)); [|done]. injection Hs as <-.
    destruct (inv_timer_request w HI _ _ Ht) as (r0 & Hr0 & _).
    pose proof (timer_fires_retires w tid t r0 Ht Hr0) as HR.
    destruct (Retires_promise _ _ _ _ _ _ p pr HI HR Hp) as [(-> & _)|[_ Hp']];
      [|by left].
    right. by exists tid, t.
  - destruct (bool_decide (0 < dt) && none_overdue (timers w) (clock w + dt)); [|done].
    injection Hs as <-. by left.
Qed.

(** ** Requests and promises that no timer refers to *)

Lemma Unwatched_step e w w' loc r :
  Inv w -> Unwatched loc w -> requests (_state w) !! loc = Some r ->
  step e w = Some w' ->
  Unwatched loc w' /\ requests (_state w') !! loc = Some r.
Proof.
  intros HI HU Hr Hs. split.
  - intros tid t Ht.
    destruct (step_timer_origin e w w' tid t Hs Ht) as [Hold|(_ & Hloc & _)].
    + by eapply HU.
    + rewrite Hloc. apply lookup_lt_Some in Hr. lia.
  - destruct (step_request_watched e w w' loc r HI Hs Hr) as [Hr'|(tid & t & Ht & Hl)];
      [done|]. by destruct (HU tid t Ht).
Qed.

Lemma Unwatched_run es w w' loc r :
  Inv w -> Unwatched loc w -> requests (_state w) !! loc = Some r ->
  run es w = Some w' ->
  Unwatched loc w' /\ requests (_state w') !! loc = Some r.
Proof.
  revert w. induction es as [|e es IH]; cbn; intros w HI HU Hr.
  - by intros [= <-].
  - destruct (step e w) as [w1|] eqn:Hs; [|done]. intros Hrun.
    destruct (Unwatched_step e w w1 loc r HI HU Hr Hs) as [HU1 Hr1].
    eapply (IH w1); [by eapply Inv_step|done..].
Qed.

Lemma Unheld_step e w w' p pr :
  Inv w -> Unheld p w -> promises w !! p = Some pr ->
  step e w = Some w' ->
  Unheld p w' /\ promises w' !! p = Some pr.
Proof.
  intros HI HU Hp Hs. split.
  - intros tid t Ht.
    destruct (step_timer_origin e w w' tid t Hs Ht) as [Hold|(_ & _ & Hloc)].
    + by eapply HU.
    + rewrite Hloc. apply lookup_lt_Some in Hp. lia.
  - destruct (step_promise_held e w w' p pr HI Hs Hp) as [Hp'|(tid & t & Ht & Hl)];
      [done|]. by destruct (HU tid t Ht).
Qed.

Lemma Unheld_run es w w' p pr :
  Inv w -> Unheld p w -> promises w !! p = Some pr ->
  run es w = Some w' ->
  Unheld p w' /\ promises w' !! p = Some pr.
Proof.
  revert w. induction es as [|e es IH]; cbn; intros w HI HU Hp.
  - by intros [= <-].
  - destruct (step e w) as [w1|] eqn:Hs; [|done]. intros Hrun.
    destruct (Unheld_step e w w1 p pr HI HU Hp Hs) as [HU1 Hp1].
    eapply (IH w1); [by eapply Inv_step|done..].
Qed.

(** ** The identity of a request *)

Lemma same_identity_refl r : same_identity r r.
Proof. by repeat split. Qed.

Lemma same_identity_trans r1 r2 r3 :
  same_identity r1 r2 -> same_identity r2 r3 -> same_identity r1 r3.
Proof.
  intros (? & ? & ? & ? & ?) (? & ? & ? & ? & ?). repeat split; congruence.
Qed.

Lemma request_identity_step e w w' loc r :
  Inv w -> step e w = Some w' -> requests (_state w) !! loc = Some r ->
  exists r', requests (_state w') !! loc = Some r' /\ same_identity r r'.
Proof.
  intros HI Hs Hr.
  destruct (step_request e w w' loc r HI Hs Hr)
    as [Hr'|[_ [(tid & gate & _ & Hr')|(k & a & rs & _ & Hr')]]];
    eexists; (split; [exact Hr'|]); by repeat split.
Qed.

(** X2.  Whatever happens to a manager, a request keeps its place in
    [_state.requests] and its [id], [phase], [gate], [context] and
    [createdAt]; the array never shrinks. *)
Theorem request_identity_is_kept es w w' loc r :
  reachable w -> run es w = Some w' ->
  requests (_state w) !! loc = Some r ->
  (exists r', requests (_state w') !! loc = Some r' /\ same_identity r r')
  /\ (length (requests (_state w)) <= length (requests (_state w')))%nat.
Proof.
  intros HR%reachable_Inv Hrun Hr.
  assert (Hall : forall loc r, requests (_state w) !! loc = Some r ->
            exists r', requests (_state w') !! loc = Some r' /\ same_identity r r').
  { clear loc r Hr. revert w HR Hrun.
    induction es as [|e es IH]; cbn; intros w HI Hrun loc r Hr.
    - injection Hrun as <-. exists r. split; [done|apply same_identity_refl].
    - destruct (step e w) as [w1|] eqn:Hs; [|done].
      destruct (request_identity_step e w w1 loc r HI Hs Hr) as (r1 & Hr1 & Hid1).
      destruct (IH w1 (Inv_step _ _ _ HI Hs) Hrun loc r1 Hr1) as (r2 & Hr2 & Hid2).
      exists r2. split; [done|]. by eapply same_identity_trans. }
  split; [by apply Hall|].
  destruct (decide (length (requests (_state w)) <= length (requests (_state w')))%nat)
    as [|Hgt]; [done|].
  destruct (lookup_lt_is_Some_2 (requests (_state w)) (length (requests (_state w'))))
    as [r0 Hr0]; [lia|].
  destruct (Hall _ _ Hr0) as (r' & Hr' & _). apply lookup_lt_Some in Hr'. lia.
Qed.

(** ** The audit trail *)

Lemma step_audit e w w' :
  Inv w -> step e w = Some w' ->
  (resolves e w = false /\ audit (_state w') = audit (_state w))
  \/ (resolves e w = true
      /\ exists loc r',
           requests (_state w') !! loc = Some r'
           /\ terminal (r_status r') = true
           /\ r_resolvedAt r' = Some (clock w)
           /\ r_method r' = Some (method_of e)
           /\ audit (_state w') = (audit (_state w) ++ [audit_record r'])%list).
Proof.
  intros HI Hs.
  destruct e as [rnd phase context|requestId ok reason| |tid|dt]; cbn in Hs.
  - injection Hs as <-. left. split; [done|].
    destruct (findGate w phase) as [gate|] eqn:Hg.
    + by destruct (requestApproval_gate rnd phase context w gate Hg)
        as (_ & _ & _ & _ & _ & Hau & _).
    + by rewrite requestApproval_no_gate.
  - injection Hs as <-. cbn.
    destruct (_pendingTimers w !! requestId) as [e|] eqn:He.
    + right. split; [by apply bool_decide_eq_true_2|].
      destruct (resolveApproval_retires requestId ok reason w e HI He)
        as (t & r0 & Hr0 & _ & _ & Hrq & _ & HR).
      rewrite <- Hrq in Hr0.
      destruct (Retires_request _ _ _ _ _ _ _ _ HI HR Hr0) as [(_ & _ & Hr')|[Hc _]];
        [|done].
      eexists _, _. split; [exact Hr'|]. split; [by destruct ok|].
      split; [done|]. split; [done|]. apply (ret_audit _ _ _ _ _ _ HR).
    + left. split; [by apply bool_decide_eq_false_2; intros [? ?]|].
      by rewrite resolveApproval_none_world.
  - injection Hs as <-. by left.
  - destruct (timers w !! tid) as [t|] eqn:Ht; [|done].
    destruct (due t (clock w)); [|done]. injection Hs as <-. right. split; [done|].
    destruct (inv_timer_request w HI _ _ Ht) as (r0 & Hr0 & _).
    pose proof (timer_fires_retires w tid t r0 Ht Hr0) as HR.
    destruct (Retires_request _ _ _ _ _ _ _ _ HI HR Hr0) as [(_ & _ & Hr')|[Hc _]];
      [|done].
    eexists _, _. split; [exact Hr'|]. repeat (split; [done|]).
    apply (ret_audit _ _ _ _ _ _ HR).
  - destruct (bool_decide (0 < dt) && none_overdue (timers w) (clock w + dt)); [|done].
    injection Hs as <-. by left.
Qed.

(** X3.  The audit trail is append-only: over any run of events
    [getAuditTrail] keeps every record it had, in place, and each record
    added (at most one per event) is that of a request in a terminal status
    with its resolution time set. *)
Theorem audit_trail_is_append_only es w w' :
  reachable w -> run es w = Some w' ->
  exists added,
    getAuditTrail w' = (getAuditTrail w ++ added)%list
    /\ (length added <= length es)%nat
    /\ Forall (fun a => terminal (a_status a) = true /\ is_Some (a_resolvedAt a)) added.
Proof.
  intros HR%reachable_Inv. revert w HR. unfold getAuditTrail.
  induction es as [|e es IH]; cbn; intros w HI Hrun.
  - injection Hrun as <-. exists []. by rewrite app_nil_r.
  - destruct (step e w) as [w1|] eqn:Hs; [|done].
    destruct (IH w1 (Inv_step _ _ _ HI Hs) Hrun) as (added & Heq & Hlen & Hall).
    destruct (step_audit e w w1 HI Hs)
      as [[_ Hau]|(_ & loc & r' & _ & Hterm & Hres & _ & Hau)].
    + exists added. rewrite Heq, Hau. split; [done|]. split; [lia|done].
    + exists (audit_record r' :: added). rewrite Heq, Hau, <- app_assoc.
      split; [done|]. split; [cbn; lia|]. constructor; [|done].
      cbn. split; [done|]. by rewrite Hres.
Qed.

(** X4.  Every resolution, by timeout or by hand, is audited once: the
    event appends exactly one record to the audit trail, the snapshot of
    the request as it now stands in [_state.requests], in a terminal status,
    resolved at the current time by the event's method.  No other event
    touches the trail. *)
Theorem resolution_is_audited_once e w w' :
  reachable w -> step e w = Some w' ->
  if resolves e w then
    exists loc r',
      requests (_state w') !! loc = Some r'
      /\ terminal (r_status r') = true
      /\ r_resolvedAt r' = Some (clock w)
      /\ r_method r' = Some (method_of e)
      /\ getAuditTrail w' = (getAuditTrail w ++ [audit_record r'])%list
  else getAuditTrail w' = getAuditTrail w.
Proof.
  intros HR%reachable_Inv Hs.
  destruct (step_audit e w w' HR Hs) as [[-> Hau]|(-> & Hex)]; done.
Qed.

(** ** The webhook *)


(** ** Requesting, then resolving *)


(** ** The list of pending requests *)

(** X7.  A gated request adds exactly one element to [getPendingRequests],
    at the end: the request just created, pending, with the generated id,
    the phase asked for and the gate's name. *)
Theorem getPendingRequests_after_request rnd phase context gate w :
  findGate w phase = Some gate ->
  getPendingRequests (requestApproval rnd phase context w).1
  = (getPendingRequests w ++ [new_request rnd phase context gate w])%list.
Proof.
  intros Hg.
  destruct (requestApproval_gate rnd phase context w gate Hg)
    as (_ & _ & _ & _ & Hrs & _).
  unfold getPendingRequests. rewrite Hrs, filter_app.
  by rewrite (filter_cons_True _ _ []).
Qed.

Lemma pending_count_insert (l : list Request) i r r' :
  l !! i = Some r -> r_status r = Pending -> r_status r' <> Pending ->
  length (filter (fun r => r_status r = Pending) l)
  = S (length (filter (fun r => r_status r = Pending) (<[i:=r']> l))).
Proof.
  revert i. induction l as [|x l IH]; intros i Hl Hp Hn; [done|].
  destruct i as [|i]; cbn in Hl.
  - injection Hl as ->. cbn.
    rewrite decide_True by done. by rewrite decide_False by done.
  - cbn. destruct (decide (r_status x = Pending)); cbn; [f_equal|]; by eapply IH.
Qed.

Lemma step_resolves_retires e w w' :
  Inv w -> resolves e w = true -> step e w = Some w' ->
  exists tid t r r' v,
    Retires w w' tid t r' v
    /\ requests (_state w) !! cb_request (t_callback t) = Some r
    /\ r_status r = Pending
    /\ terminal (r_status r') = true
    /\ same_identity r r'.
Proof.
  intros HI Hres Hs.
  destruct e as [rnd phase context|requestId ok reason| |tid|dt]; cbn in Hs, Hres;
    try done.
  - injection Hs as <-. apply bool_decide_eq_true in Hres as [e He].
    destruct (resolveApproval_retires requestId ok reason w e HI He)
      as (t & r0 & Hr0 & Hst & _ & Hrq & _ & HR).
    exists (pe_timer e), t, r0. eexists _, _. split; [exact HR|].
    rewrite Hrq. split; [done|]. split; [done|]. split; [by destruct ok|].
    by repeat split.
  - destruct (timers w !! tid) as [t|] eqn:Ht; [|done].
    destruct (due t (clock w)); [|done]. injection Hs as <-.
    destruct (inv_timer_request w HI _ _ Ht) as (r0 & Hr0 & Hst & _).
    exists tid, t, r0. eexists _, _.
    split; [by apply timer_fires_retires|]. by repeat split.
Qed.

(** X8.  A resolution, by timeout or by hand, takes exactly one request out
    of [getPendingRequests]: the list is one shorter afterwards. *)
Theorem resolution_removes_one_pending_request e w w' :
  reachable w -> resolves e w = true -> step e w = Some w' ->
  length (getPendingRequests w) = S (length (getPendingRequests w')).
Proof.
  intros HI%reachable_Inv Hres Hs.
  destruct (step_resolves_retires e w w' HI Hres Hs)
    as (tid & t & r & r' & v & HR & Hr & Hp & Hterm & _).
  unfold getPendingRequests. rewrite (ret_requests _ _ _ _ _ _ HR).
  eapply pending_count_insert; [done..|].
  intros Heq. by rewrite Heq in Hterm.
Qed.

(** X9.  In every state a manager can reach, each id filed in
    [_pendingTimers] is the id of a request that [getPendingRequests]
    returns; its timer is armed, its promise is unsettled, and the id is
    not a member name of [Object.prototype]. *)
Theorem pending_table_entries_are_pending_requests w k e :
  reachable w -> _pendingTimers w !! k = Some e ->
  inherited k = false
  /\ is_Some (timers w !! pe_timer e)
  /\ promises w !! pe_resolve e = Some promise_pending
  /\ exists r, requests (_state w) !! pe_request e = Some r
                /\ r_id r = k /\ r_status r = Pending
                /\ r ∈ getPendingRequests w.
Proof.
  intros HI%reachable_Inv He.
  destruct (inv_entry w HI _ _ He) as (t & Ht & Hk & Hrq & Hrs).
  destruct (inv_timer_request w HI _ _ Ht) as (r & Hr & Hst & Hid).
  pose proof (inv_timer_promise w HI _ _ Ht) as Hp.
  pose proof (inv_timer_id w HI _ _ Ht) as Hin.
  rewrite Hk in Hin, Hid. rewrite Hrq in Hr. rewrite Hrs in Hp.
  split; [done|]. split; [by eexists|]. split; [done|].
  exists r. repeat (split; [done|]).
  unfold getPendingRequests. apply list_elem_of_filter. split; [done|].
  by eapply list_elem_of_lookup_2.
Qed.

(** ** [destroy] *)

Lemma destroy_twice w : destroy (destroy w) = destroy w.
Proof. unfold destroy. cbn. by rewrite map_to_list_empty. Qed.

(** X10.  [destroy] cancels without resolving.  It empties
    [_pendingTimers] and clears the timer of every entry, writes nothing and
    settles no promise; a request that was waiting stays [pending] in
    [_state.requests] and its promise stays unsettled through everything
    that happens afterwards.  A second [destroy] changes nothing. *)
Theorem destroy_abandons_pending_requests w k e :
  reachable w -> _pendingTimers w !! k = Some e ->
  let w1 := destroy w in
  _pendingTimers w1 = ∅
  /\ timers w1 !! pe_timer e = None
  /\ _state w1 = _state w /\ promises w1 = promises w
  /\ fs w1 = fs w /\ fs_history w1 = fs_history w
  /\ destroy w1 = w1
  /\ exists r,
       requests (_state w) !! pe_request e = Some r /\ r_status r = Pending
       /\ forall es w2, run es w1 = Some w2 ->
            requests (_state w2) !! pe_request e = Some r
            /\ promises w2 !! pe_resolve e = Some promise_pending.
Proof.
  intros HI%reachable_Inv He w1.
  destruct (inv_entry w HI _ _ He) as (t & Ht & Hk & Hrq & Hrs).
  destruct (inv_timer_request w HI _ _ Ht) as (r & Hr & Hst & _).
  pose proof (inv_timer_promise w HI _ _ Ht) as Hp.
  rewrite Hrq in Hr. rewrite Hrs in Hp.
  assert (Hdead : timers w1 !! pe_timer e = None).
  { unfold w1, destroy. cbn.
    apply (clear_timers_cleared (map_to_list (_pendingTimers w)) (timers w) (k, e)).
    by apply elem_of_map_to_list. }
  do 6 (split; [done|]).
  split; [apply destroy_twice|].
  exists r. split; [done|]. split; [done|].
  assert (HI1 : Inv w1) by by apply Inv_destroy.
  assert (Hother : forall tid t', timers w1 !! tid = Some t' ->
            timers w !! tid = Some t' /\ tid <> pe_timer e).
  { intros tid t' Ht'. split.
    - unfold w1, destroy in Ht'. cbn in Ht'. by eapply clear_timers_lookup.
    - intros ->. by rewrite Hdead in Ht'. }
  intros es w2 Hrun. split.
  - eapply (Unwatched_run es w1 w2); [done| |done|done].
    intros tid t' Ht' Heq. destruct (Hother _ _ Ht') as [Hold Hne].
    apply Hne. eapply (inv_timer_request_inj w HI); [done..|]. by rewrite Heq, Hrq.
  - eapply (Unheld_run es w1 w2); [done| |done|done].
    intros tid t' Ht' Heq. destruct (Hother _ _ Ht') as [Hold Hne].
    apply Hne. eapply (inv_timer_promise_inj w HI); [done..|]. by rewrite Heq, Hrs.
Qed.

Lemma Tracked_destroy w : Tracked w -> timers (destroy w) = ∅.
Proof.
  intros HT. apply map_eq. intros tid. rewrite lookup_empty.
  unfold destroy. cbn.
  destruct (timers w !! tid) as [t|] eqn:Ht.
  - destruct (HT tid t Ht) as (e & He & <-).
    apply (clear_timers_cleared (map_to_list (_pendingTimers w)) (timers w)
             (cb_requestId (t_callback t), e)).
    by apply elem_of_map_to_list.
  - destruct (foldr _ _ _ !! tid) as [t|] eqn:Hf; [|done].
    apply clear_timers_lookup in Hf. congruence.
Qed.

Lemma Tracked_retires w w' tid t r' v :
  Tracked w -> Retires w w' tid t r' v -> Tracked w'.
Proof.
  intros HT HR tid1 t1.
  rewrite (ret_timers _ _ _ _ _ _ HR), (ret_pending _ _ _ _ _ _ HR).
  intros [Hne H1]%lookup_delete_Some.
  destruct (HT _ _ H1) as (e1 & He1 & Htid1). exists e1. split; [|done].
  apply lookup_delete_Some. split; [|done].
  intros Heq. apply Hne.
  destruct (HT _ _ (ret_timer _ _ _ _ _ _ HR)) as (e0 & He0 & Htid0).
  rewrite Heq in He0. rewrite He0 in He1. injection He1 as <-. congruence.
Qed.

Lemma Tracked_step e w w' :
  Inv w -> Tracked w -> fresh_key e w -> step e w = Some w' -> Tracked w'.
Proof.
  intros HI HT Hf Hs.
  destruct e as [rnd phase context|requestId ok reason| |tid|dt]; cbn in Hs, Hf.
  - injection Hs as <-.
    destruct (findGate w phase) as [gate|] eqn:Hg.
    + destruct (requestApproval_gate rnd phase context w gate Hg)
        as (_ & Hts & _ & _ & _ & _ & Hpt & _).
      intros tid t. rewrite Hts, Hpt.
      intros [[<- <-]|[_ Ht]]%lookup_insert_Some.
      * eexists. cbn. by rewrite lookup_insert_eq.
      * destruct (HT _ _ Ht) as (e & He & Htid). exists e. split; [|done].
        rewrite lookup_insert_ne; [done|]. intros Heq. rewrite <- Heq in He.
        by rewrite Hf in He.
    + by rewrite requestApproval_no_gate.
  - injection Hs as <-.
    destruct (_pendingTimers w !! requestId) as [e|] eqn:He.
    + destruct (resolveApproval_retires requestId ok reason w e HI He)
        as (t & r0 & _ & _ & _ & _ & _ & HR).
      by eapply Tracked_retires.
    + by rewrite resolveApproval_none_world.
  - injection Hs as <-. intros tid t. by rewrite (Tracked_destroy w HT), lookup_empty.
  - destruct (timers w !! tid) as [t|] eqn:Ht; [|done].
    destruct (due t (clock w)); [|done]. injection Hs as <-.
    destruct (inv_timer_request w HI _ _ Ht) as (r0 & Hr0 & _).
    eapply Tracked_retires; [done|]. by apply timer_fires_retires.
  - destruct (bool_decide (0 < dt) && none_overdue (timers w) (clock w + dt)); [|done].
    by injection Hs as <-.
Qed.

Lemma Tracked_run es w w' :
  Inv w -> Tracked w -> fresh_run es w -> run es w = Some w' -> Tracked w'.
Proof.
  revert w. induction es as [|e es IH]; cbn; intros w HI HT Hf.
  - by intros [= <-].
  - destruct Hf as [Hf1 Hf2]. destruct (step e w) as [w1|] eqn:Hs; [|done].
    intros Hrun. eapply (IH w1); [by eapply Inv_step|by eapply Tracked_step|done..].
Qed.

(** X11.  As long as no request was given the id of a request still pending,
    [destroy] leaves no timer armed at all: after it, no timeout callback of
    this manager can run. *)
Theorem destroy_cancels_every_timer cwd now files projectDir gates es w :
  fresh_run es (constructor cwd now files projectDir gates) ->
  run es (constructor cwd now files projectDir gates) = Some w ->
  timers (destroy w) = ∅
  /\ forall tid, step (TimerFires tid) (destroy w) = None.
Proof.
  intros Hf Hrun.
  assert (HT : Tracked w).
  { eapply Tracked_run; [apply Inv_constructor| |done|done].
    intros tid t. cbn. by rewrite lookup_empty. }
  pose proof (Tracked_destroy w HT) as Hts.
  split; [done|]. intros tid. cbn -[destroy]. by rewrite Hts, lookup_empty.
Qed.

(** ** Restarting *)

(** X12.  A manager constructed over the file system another one left
    behind reads back its whole state (given that [JSON.parse] reads what
    [JSON.stringify] wrote), but no timer and no entry of [_pendingTimers]:
    the requests that were pending are listed by [getPendingRequests], can
    no longer be resolved ([resolveApproval] returns [false]) and are never
    changed again. *)
Theorem restart_abandons_pending_requests cwd now gates w :
  _projectDir w <> "" -> persisted w ->
  JSON_parse (JSON_stringify (_state w)) = Some (_state w) ->
  let w' := constructor cwd now (fs w) (Some (_projectDir w)) gates in
  _state w' = _state w
  /\ getPendingRequests w' = getPendingRequests w
  /\ _pendingTimers w' = ∅ /\ timers w' = ∅
  /\ (forall requestId approved reason,
        inherited requestId = false ->
        resolveApproval requestId approved reason w' = (w', Returned false))
  /\ (forall es w2 loc r,
        run es w' = Some w2 -> requests (_state w) !! loc = Some r ->
        requests (_state w2) !! loc = Some r).
Proof.
  intros Hdir Hper Hrt w'.
  assert (Hst : _state w' = _state w).
  { unfold w', constructor. cbn. apply String.eqb_neq in Hdir. rewrite Hdir.
    unfold persisted, _stateFile in Hper. cbn in Hper.
    unfold _loadState, existsSync, readFileSync. cbn.
    rewrite Hper. rewrite bool_decide_eq_true_2 by by eexists. by rewrite Hrt. }
  split; [done|]. split; [unfold getPendingRequests; by rewrite Hst|].
  split; [done|]. split; [done|]. split.
  - intros requestId approved reason Hi. by apply resolveApproval_none.
  - intros es w2 loc r Hrun Hr.
    eapply (Unwatched_run es w' w2); [apply Inv_constructor| | |done].
    + intros tid t. cbn. by rewrite lookup_empty.
    + by rewrite Hst.
Qed.

(** ** Timeouts out of range *)


(** ** Requests do not interfere *)

(** X14.  Resolving one request leaves every other waiting request as it
    was: its entry in [_pendingTimers], its armed timer, its request object
    and its promise are untouched. *)
Theorem resolution_leaves_other_requests_waiting k1 k2 e2 approved reason w :
  reachable w -> k1 <> k2 -> _pendingTimers w !! k2 = Some e2 ->
  let w' := (resolveApproval k1 approved reason w).1 in
  _pendingTimers w' !! k2 = Some e2
  /\ timers w' !! pe_timer e2 = timers w !! pe_timer e2
  /\ requests (_state w') !! pe_request e2 = requests (_state w) !! pe_request e2
  /\ promises w' !! pe_resolve e2 = promises w !! pe_resolve e2.
Proof.
  intros HI%reachable_Inv Hne He2 w'.
  destruct (_pendingTimers w !! k1) as [e1|] eqn:He1.
  - destruct (resolveApproval_retires k1 approved reason w e1 HI He1)
      as (t1 & r1 & _ & _ & Hk1 & _ & _ & HR).
    fold w' in HR.
    destruct (inv_entry w HI _ _ He2) as (t2 & Ht2 & Hk2 & Hrq2 & Hrs2).
    destruct (inv_timer_request w HI _ _ Ht2) as (r2 & Hr2 & _).
    pose proof (inv_timer_promise w HI _ _ Ht2) as Hp2.
    pose proof (ret_timer _ _ _ _ _ _ HR) as Ht1.
    assert (Htid : pe_timer e1 <> pe_timer e2).
    { intros Heq. rewrite Heq, Ht2 in Ht1. injection Ht1 as ->. congruence. }
    split; [|split; [|split]].
    + rewrite (ret_pending _ _ _ _ _ _ HR), Hk1. by rewrite lookup_delete_ne.
    + rewrite (ret_timers _ _ _ _ _ _ HR). by rewrite lookup_delete_ne.
    + rewrite <- Hrq2.
      destruct (Retires_request _ _ _ _ _ _ _ _ HI HR Hr2) as [(Heq & _)|[_ ->]];
        [|done].
      exfalso. apply Htid. by eapply (inv_timer_request_inj w HI).
    + rewrite <- Hrs2.
      destruct (Retires_promise _ _ _ _ _ _ _ _ HI HR Hp2) as [(Heq & _)|[_ ->]];
        [|done].
      exfalso. apply Htid. by eapply (inv_timer_promise_inj w HI).
  - unfold w'. by rewrite resolveApproval_none_world.
Qed.



End ManagerMore.

(* ------------------------------------------------------------------- *)
(** ** More of the manager on the gates of the test-suite *)
(* ------------------------------------------------------------------- *)

Lemma test_world_reachable : @reachable demo_runtime test_world.
Proof.
  exists "/tmp", 1000, ∅, (Some "/tmp/loki-approval-test"), (Some test_gates), [].
  reflexivity.
Qed.

Lemma release_pending_reachable : @reachable demo_runtime release_pending.
Proof.
  exists "/tmp", 1000, ∅, (Some "/tmp/loki-approval-test"), (Some test_gates),
    [CallRequest "abc123" "release" (JObj [])].
  reflexivity.
Qed.

Lemma two_pending_reachable : @reachable demo_runtime two_pending.
Proof.
  exists "/tmp", 1000, ∅, (Some "/tmp/loki-approval-test"), (Some test_gates),
    [CallRequest "abc123" "release" (JObj []); CallRequest "def456" "deploy" JUndefined].
  by vm_compute.
Qed.

Lemma request_identity_is_kept_witness :
  let w2 := (@resolveApproval demo_runtime "apr-1000-abc123" false None release_pending).1 in
  exists r', requests (_state w2) !! 0%nat = Some r'
             /\ same_identity
                  (new_request "abc123" "release" (JObj [])
                     {| g_name := "pre-release"; g_phase := "release";
                        g_timeout_minutes := TmNum 30; g_webhook := None |} test_world)
                  r'.
Proof.
  intros w2.
  exact (proj1 (@request_identity_is_kept demo_runtime
                  [CallResolve "apr-1000-abc123" false None] release_pending w2 0%nat _
                  release_pending_reachable eq_refl eq_refl)).
Defined.

Lemma audit_trail_is_append_only_witness :
  let w2 := (@resolveApproval demo_runtime "apr-1000-abc123" true None release_pending).1 in
  exists added,
    getAuditTrail w2 = (getAuditTrail test_world ++ added)%list
    /\ (length added <= 2)%nat
    /\ Forall (fun a => terminal (a_status a) = true /\ is_Some (a_resolvedAt a)) added.
Proof.
  intros w2.
  exact (@audit_trail_is_append_only demo_runtime
           [CallRequest "abc123" "release" (JObj []);
            CallResolve "apr-1000-abc123" true None]
           test_world w2 test_world_reachable eq_refl).
Defined.

Lemma resolution_is_audited_once_witness :
  let w2 := (@resolveApproval demo_runtime "apr-1000-abc123" true None release_pending).1 in
  exists loc r',
    requests (_state w2) !! loc = Some r'
    /\ terminal (r_status r') = true
    /\ r_resolvedAt r' = Some 1000
    /\ r_method r' = Some "manual"
    /\ getAuditTrail w2 = (getAuditTrail release_pending ++ [audit_record r'])%list.
Proof.
  intros w2.
  exact (@resolution_is_audited_once demo_runtime
           (CallResolve "apr-1000-abc123" true None) release_pending w2
           release_pending_reachable eq_refl).
Defined.



Lemma getPendingRequests_after_request_witness :
  r_id <$> getPendingRequests release_pending = ["apr-1000-abc123"].
Proof.
  unfold release_pending.
  rewrite (@getPendingRequests_after_request demo_runtime "abc123" "release" (JObj [])
             {| g_name := "pre-release"; g_phase := "release";
                g_timeout_minutes := TmNum 30; g_webhook := None |}
             test_world eq_refl).
  reflexivity.
Defined.

Lemma resolution_removes_one_pending_request_witness :
  length (getPendingRequests release_pending)
  = S (length (getPendingRequests
                 (@resolveApproval demo_runtime "apr-1000-abc123" true None
                    release_pending).1)).
Proof.
  exact (@resolution_removes_one_pending_request demo_runtime
           (CallResolve "apr-1000-abc123" true None) release_pending _
           release_pending_reachable eq_refl eq_refl).
Defined.

Lemma pending_table_entries_are_pending_requests_witness :
  exists r, requests (_state release_pending) !! 0%nat = Some r
            /\ r_id r = "apr-1000-abc123" /\ r_status r = Pending
            /\ r ∈ getPendingRequests release_pending.
Proof.
  destruct (@pending_table_entries_are_pending_requests demo_runtime release_pending
              "apr-1000-abc123" {| pe_timer := 0; pe_resolve := 0; pe_request := 0 |}
              release_pending_reachable eq_refl) as (_ & _ & _ & Hex).
  exact Hex.
Defined.

Lemma destroy_abandons_pending_requests_witness :
  _pendingTimers (destroy release_pending) = ∅
  /\ timers (destroy release_pending) !! 0%nat = None
  /\ getPendingRequests (destroy release_pending) = getPendingRequests release_pending.
Proof.
  destruct (@destroy_abandons_pending_requests demo_runtime release_pending
              "apr-1000-abc123" {| pe_timer := 0; pe_resolve := 0; pe_request := 0 |}
              release_pending_reachable eq_refl) as (Hpt & Hdead & Hst & _).
  split; [done|]. split; [done|]. unfold getPendingRequests. by rewrite Hst.
Defined.

Lemma destroy_cancels_every_timer_witness :
  timers (destroy two_pending) = ∅.
Proof.
  apply (@destroy_cancels_every_timer demo_runtime "/tmp" 1000 ∅
           (Some "/tmp/loki-approval-test") (Some test_gates)
           [CallRequest "abc123" "release" (JObj []);
            CallRequest "def456" "deploy" JUndefined]).
  - vm_compute. repeat split.
  - by vm_compute.
Defined.

Lemma restart_abandons_pending_requests_witness :
  let w' := @constructor (memo_runtime (_state release_pending)) "/tmp" 2000
              (fs saved_world) (Some (_projectDir saved_world)) (Some test_gates) in
  _state w' = _state saved_world
  /\ r_id <$> getPendingRequests w' = ["apr-1000-abc123"]
  /\ @resolveApproval (memo_runtime (_state release_pending))
       "apr-1000-abc123" true None w' = (w', Returned false).
Proof.
  intros w'.
  destruct (@restart_abandons_pending_requests (memo_runtime (_state release_pending))
              "/tmp" 2000 (Some test_gates) saved_world)
    as (Hst & Hpend & _ & _ & Hres & _).
  - by vm_compute.
  - by vm_compute.
  - by vm_compute.
  - split; [done|]. split; [|by apply Hres].
    fold w' in Hpend. rewrite Hpend. reflexivity.
Defined.


Lemma resolution_leaves_other_requests_waiting_witness :
  let w' := (@resolveApproval demo_runtime "apr-1000-abc123" true None two_pending).1 in
  _pendingTimers w' !! "apr-1000-def456"
  = Some {| pe_timer := 1; pe_resolve := 1; pe_request := 1 |}
  /\ timers w' !! 1%nat = timers two_pending !! 1%nat.
Proof.
  intros w'.
  destruct (@resolution_leaves_other_requests_waiting demo_runtime
              "apr-1000-abc123" "apr-1000-def456"
              {| pe_timer := 1; pe_resolve := 1; pe_request := 1 |}
              true None two_pending two_pending_reachable)
    as (Hpt & Hts & _); [done|by vm_compute|].
  by split.
Defined.

